(** * Notepad-lite: the document session of the three editors

    The repository holds three tkinter editors, [Windows.py], [macos.py] and
    [linux.py].  Each keeps the current document in a [tk.Text] widget, the
    attribute [current_file] and the widget's modified flag, and guards the
    destructive commands (New, Open, Exit) with [check_unsaved_changes].

    This development embeds the file commands of the three editors as
    programs of a state-and-exception monad over an explicit world (widget,
    [current_file], storage, trace of dialogs and writes) and proves the
    properties of the session that the specification lists.

    Cosmetic widget calls ([update_title], [update_status], [focus_set],
    [update_line_numbers], [encoding_label.config]) read the session but write
    neither the session nor the storage; they are left out of the programs.
    The window title of macos.py and the line numbers of linux.py are
    treated on their own in the last sections, with the text tools of
    linux.py (Convert Line Endings, Format Code).

    tkinter, the codecs and the text files of Python are not part of the
    repository.  They are modelled after their documented behaviour: the
    widget keeps a final newline of its own and raises its modified flag on
    every insertion and deletion; text files translate newlines and encode
    strictly; [open] fails with [OSError].  The documents are read and
    written with the encodings the code names.  The list of recent files is
    opened without [encoding=]: its codec is the default encoding of the
    locale, a parameter of the environment. *)

From Stdlib Require Import NArith ZArith List Bool Lia String Ascii.
From stdpp Require Import base option countable gmap.
Import ListNotations.

Local Open Scope N_scope.

(** ** Python values *)

(** A Python [str] is a sequence of code points, a [bytes] object a sequence
    of numbers below 256.  Paths are [str]s as well. *)
Abbreviation str := (list N) (only parsing).
Abbreviation bytes := (list N) (only parsing).

(** [py "abc"] is the Python literal ['abc']. *)
Definition py (s : string) : str :=
  List.map N_of_ascii (list_ascii_of_string s).

(** Truth value of a [str] or of [None], as in [if file_path:] and
    [if self.current_file:]. *)
Definition truthy (s : str) : bool :=
  match s with [] => false | _ :: _ => true end.

Definition truthy_opt (o : option str) : bool :=
  match o with None => false | Some s => truthy s end.

Definition LF : N := 10.
Definition CR : N := 13.

(** ** Text codecs of the Python runtime *)

Module Codec.

Inductive encoding := utf_8 | cp1251 | iso_8859_1 | latin_1.

Definition is_surrogate (c : N) : bool := (0xD800 <=? c) && (c <=? 0xDFFF).

(** Strict UTF-8: surrogates and values above U+10FFFF are refused. *)
Definition utf8_encode_char (c : N) : option bytes :=
  if c <? 0x80 then Some [c]
  else if c <? 0x800 then Some [0xC0 + c / 64; 0x80 + c mod 64]
  else if c <? 0x10000 then
    if is_surrogate c then None
    else Some [0xE0 + c / 4096; 0x80 + (c / 64) mod 64; 0x80 + c mod 64]
  else if c <? 0x110000 then
    Some [0xF0 + c / 262144; 0x80 + (c / 4096) mod 64;
          0x80 + (c / 64) mod 64; 0x80 + c mod 64]
  else None.

Fixpoint utf8_encode (s : str) : option bytes :=
  match s with
  | [] => Some []
  | c :: r =>
      match utf8_encode_char c, utf8_encode r with
      | Some a, Some b => Some (a ++ b)
      | _, _ => None
      end
  end.

(** An encoder that works one character at a time and keeps no state
    between characters, as UTF-8 above and as every encoding a POSIX locale
    can name: a character that has no bytes makes the whole text fail. *)
Fixpoint charwise_encode (f : N -> option bytes) (s : str) : option bytes :=
  match s with
  | [] => Some []
  | c :: r =>
      match f c, charwise_encode f r with
      | Some a, Some b => Some (a ++ b)
      | _, _ => None
      end
  end.

Definition cont (b : N) : bool := (0x80 <=? b) && (b <=? 0xBF).

(** Strict decoding: truncated sequences, stray continuation bytes,
    overlong forms, surrogates and values above U+10FFFF all fail. *)
Fixpoint utf8_decode (bs : bytes) : option str :=
  match bs with
  | [] => Some []
  | b0 :: r0 =>
      if b0 <? 0x80 then cons b0 <$> utf8_decode r0
      else if b0 <? 0xC2 then None
      else if b0 <? 0xE0 then
        match r0 with
        | b1 :: r1 =>
            if cont b1
            then cons ((b0 - 0xC0) * 64 + (b1 - 0x80)) <$> utf8_decode r1
            else None
        | _ => None
        end
      else if b0 <? 0xF0 then
        match r0 with
        | b1 :: b2 :: r2 =>
            let c := (b0 - 0xE0) * 4096 + (b1 - 0x80) * 64 + (b2 - 0x80) in
            if cont b1 && cont b2 && (0x800 <=? c) && negb (is_surrogate c)
            then cons c <$> utf8_decode r2
            else None
        | _ => None
        end
      else if b0 <? 0xF5 then
        match r0 with
        | b1 :: b2 :: b3 :: r3 =>
            let c := (b0 - 0xF0) * 262144 + (b1 - 0x80) * 4096
                     + (b2 - 0x80) * 64 + (b3 - 0x80) in
            if cont b1 && cont b2 && cont b3
               && (0x10000 <=? c) && (c <? 0x110000)
            then cons c <$> utf8_decode r3
            else None
        | _ => None
        end
      else None
  end.

(** Upper half of code page 1251; byte 0x98 is unassigned. *)
Definition cp1251_high : list (option N) :=
  [ Some 1026; Some 1027; Some 8218; Some 1107; Some 8222; Some 8230;
    Some 8224; Some 8225; Some 8364; Some 8240; Some 1033; Some 8249;
    Some 1034; Some 1036; Some 1035; Some 1039; Some 1106; Some 8216;
    Some 8217; Some 8220; Some 8221; Some 8226; Some 8211; Some 8212;
    None; Some 8482; Some 1113; Some 8250; Some 1114; Some 1116;
    Some 1115; Some 1119; Some 160; Some 1038; Some 1118; Some 1032;
    Some 164; Some 1168; Some 166; Some 167; Some 1025; Some 169;
    Some 1028; Some 171; Some 172; Some 173; Some 174; Some 1031;
    Some 176; Some 177; Some 1030; Some 1110; Some 1169; Some 181;
    Some 182; Some 183; Some 1105; Some 8470; Some 1108; Some 187;
    Some 1112; Some 1029; Some 1109; Some 1111 ].

Definition cp1251_decode_byte (b : N) : option N :=
  if b <? 0x80 then Some b
  else if b <? 0xC0 then mjoin (cp1251_high !! N.to_nat (b - 0x80))
  else if b <? 0x100 then Some (b - 0xC0 + 0x410)
  else None.

Fixpoint charmap_decode (f : N -> option N) (bs : bytes) : option str :=
  match bs with
  | [] => Some []
  | b :: r =>
      match f b, charmap_decode f r with
      | Some c, Some s => Some (c :: s)
      | _, _ => None
      end
  end.

(** ISO 8859-1 maps every byte to the code point of the same value. *)
Definition latin1_decode (bs : bytes) : option str := Some bs.

Definition decode (enc : encoding) (bs : bytes) : option str :=
  match enc with
  | utf_8 => utf8_decode bs
  | cp1251 => charmap_decode cp1251_decode_byte bs
  | iso_8859_1 | latin_1 => latin1_decode bs
  end.

(** Text mode with [newline=None]: reading turns ['\r\n'] and ['\r'] into
    ['\n'], writing turns ['\n'] into [os.linesep]. *)
Fixpoint universal_newlines (s : str) : str :=
  match s with
  | [] => []
  | c :: r =>
      if c =? CR then
        match r with
        | c' :: r' =>
            if c' =? LF then LF :: universal_newlines r'
            else LF :: universal_newlines r
        | [] => [LF]
        end
      else c :: universal_newlines r
  end.

Definition translate_out (linesep : str) (s : str) : str :=
  flat_map (fun c => if c =? LF then linesep else [c]) s.

End Codec.

Example utf8_decode_euro :
  Codec.utf8_decode [0xE2; 0x82; 0xAC] = Some [0x20AC].
Proof. reflexivity. Qed.

Example utf8_decode_overlong : Codec.utf8_decode [0xC0; 0x80] = None.
Proof. reflexivity. Qed.

Example cp1251_decode_98 : Codec.decode Codec.cp1251 [0x98] = None.
Proof. reflexivity. Qed.

(** ** The world: widget, session, storage, trace *)

Inductive exn := OSError | UnicodeDecodeError | UnicodeEncodeError | ValueError.

(** What the editor asks of its collaborators, in the order it asks. *)
Inductive event :=
| AskYesNoCancel                      (* messagebox.askyesnocancel *)
| AskSaveAsFilename                   (* filedialog.asksaveasfilename *)
| AskOpenFilename                     (* filedialog.askopenfilename *)
| ShowError                           (* messagebox.showerror *)
| OpenRead (path : str)               (* open(path, 'r', ...) *)
| OpenWrite (path : str)              (* open(path, 'w', ...) *)
| Write (path : str) (data : bytes)   (* file.write reached the file *)
| Quit.                               (* root.quit() *)

Record world := World {
  chars : str;                 (* widget text before its final newline *)
  modified : bool;             (* the widget's modified flag *)
  current_file : option str;   (* self.current_file *)
  recent_files : list str;     (* self.recent_files, linux.py only *)
  files : gmap (list N) (list N);  (* storage: path to file content *)
  trace : list event           (* newest event first *)
}.

(** The answers of the user and of the operating system during one command. *)
Record env := Env {
  yesnocancel : option bool;   (* Some true = Yes, Some false = No, None = Cancel *)
  save_name : str;             (* asksaveasfilename; '' when dismissed *)
  open_name : str;             (* askopenfilename; '' when dismissed *)
  may_read : str -> bool;      (* does open(path, 'r') succeed on an existing file *)
  may_write : str -> bool;     (* does open(path, 'w') succeed *)
  linesep : str;               (* os.linesep *)
  recent_files_file : str;     (* ~/.config/linux-notepad/recent_files.txt *)
  max_files : option Z;        (* [recent] max_files; None when not an integer *)
  locale_encode : N -> option bytes;
    (* the default encoding of open() without encoding=, one character *)
  locale_decode : bytes -> option str
    (* decoding with that default encoding *)
}.

(** The document session of the specification: buffer, path, dirty flag. *)
Definition session (w : world) : str * option str * bool :=
  (chars w, current_file w, modified w).

Definition with_chars (s : str) (w : world) : world :=
  World s (modified w) (current_file w) (recent_files w) (files w) (trace w).
Definition with_modified (b : bool) (w : world) : world :=
  World (chars w) b (current_file w) (recent_files w) (files w) (trace w).
Definition with_current_file (o : option str) (w : world) : world :=
  World (chars w) (modified w) o (recent_files w) (files w) (trace w).
Definition with_recent_files (l : list str) (w : world) : world :=
  World (chars w) (modified w) (current_file w) l (files w) (trace w).
Definition with_files (m : gmap (list N) (list N)) (w : world) : world :=
  World (chars w) (modified w) (current_file w) (recent_files w) m (trace w).
Definition with_event (ev : event) (w : world) : world :=
  World (chars w) (modified w) (current_file w) (recent_files w) (files w)
        (ev :: trace w).

(** ** Commands: state passing with Python exceptions *)

Inductive outcome (A : Type) :=
| Return (a : A)
| Raise (x : exn).
Arguments Return {A} a.
Arguments Raise {A} x.

Definition M (A : Type) : Type := world -> outcome A * world.

Definition ret {A} (a : A) : M A := fun w => (Return a, w).
Definition raise {A} (x : exn) : M A := fun w => (Raise x, w).
Definition bind {A B} (c : M A) (k : A -> M B) : M B :=
  fun w => match c w with
           | (Return a, w') => k a w'
           | (Raise x, w') => (Raise x, w')
           end.
(** [try: c except ...: h x]; the handler re-raises what it does not catch. *)
Definition catch {A} (c : M A) (h : exn -> M A) : M A :=
  fun w => match c w with
           | (Return a, w') => (Return a, w')
           | (Raise x, w') => h x w'
           end.
Definition get {A} (f : world -> A) : M A := fun w => (Return (f w), w).
Definition modify (f : world -> world) : M unit := fun w => (Return tt, f w).
Definition emit (ev : event) : M unit := modify (with_event ev).

Declare Scope py_scope.
Delimit Scope py_scope with py.
Notation "x <- c ;; k" := (bind c (fun x => k))
  (at level 100, c at next level, right associativity) : py_scope.
Notation "c ;; k" := (bind c (fun _ => k))
  (at level 100, right associativity) : py_scope.
Local Open Scope py_scope.

(** ** The tk.Text widget *)

Module Tk.

(** [text.get(1.0, tk.END)]: the index [END] lies after the final newline
    that the widget always keeps, so that newline is part of the result. *)
Definition text_get_1_END : M str := get (fun w => chars w ++ [LF]).

(** [text.delete(1.0, tk.END)]: everything but the final newline goes; a
    deletion that removes something sets the modified flag. *)
Definition text_delete_1_END : M unit :=
  modify (fun w => match chars w with
                   | [] => w
                   | _ :: _ => with_modified true (with_chars [] w)
                   end).

(** [text.insert(1.0, s)]. *)
Definition text_insert_1 (s : str) : M unit :=
  modify (fun w => match s with
                   | [] => w
                   | _ :: _ => with_modified true (with_chars (s ++ chars w) w)
                   end).

Definition edit_modified : M bool := get modified.
Definition edit_modified_set (b : bool) : M unit := modify (with_modified b).

End Tk.

(** ** Files, dialogs and message boxes *)

Module IO.

(** [with open(path, 'r', encoding=enc) as file: file.read()]. *)
Definition read_text (e : env) (path : str) (enc : Codec.encoding) : M str :=
  emit (OpenRead path) ;;
  data <- get (fun w => files w !! path) ;;
  match data with
  | None => raise OSError
  | Some bs =>
      if may_read e path then
        match Codec.decode enc bs with
        | Some s => ret (Codec.universal_newlines s)
        | None => raise UnicodeDecodeError
        end
      else raise OSError
  end.

(** [with open(path, 'r') as f], no [encoding=]: the file is decoded with
    the default encoding of the locale. *)
Definition read_default (e : env) (path : str) : M str :=
  emit (OpenRead path) ;;
  data <- get (fun w => files w !! path) ;;
  match data with
  | None => raise OSError
  | Some bs =>
      if may_read e path then
        match locale_decode e bs with
        | Some s => ret (Codec.universal_newlines s)
        | None => raise UnicodeDecodeError
        end
      else raise OSError
  end.

(** [open(path, 'w', ...)] creates or truncates the file. *)
Definition open_w (e : env) (path : str) : M unit :=
  emit (OpenWrite path) ;;
  if may_write e path
  then modify (fun w => with_files (<[path := []]> (files w)) w)
  else raise OSError.

(** [file.write(s)] on a file opened with [encoding='utf-8']. *)
Definition file_write (e : env) (path : str) (s : str) : M unit :=
  match Codec.utf8_encode (Codec.translate_out (linesep e) s) with
  | Some bs =>
      modify (fun w =>
        with_files (<[path := default [] (files w !! path) ++ bs]> (files w)) w) ;;
      emit (Write path bs)
  | None => raise UnicodeEncodeError
  end.

(** [file.write(s)] on a file opened without [encoding=]: the text is
    encoded with the default encoding of the locale. *)
Definition file_write_default (e : env) (path : str) (s : str) : M unit :=
  match Codec.charwise_encode (locale_encode e)
          (Codec.translate_out (linesep e) s) with
  | Some bs =>
      modify (fun w =>
        with_files (<[path := default [] (files w !! path) ++ bs]> (files w)) w) ;;
      emit (Write path bs)
  | None => raise UnicodeEncodeError
  end.

Definition asksaveasfilename (e : env) : M str :=
  emit AskSaveAsFilename ;; ret (save_name e).
Definition askopenfilename (e : env) : M str :=
  emit AskOpenFilename ;; ret (open_name e).
Definition askyesnocancel (e : env) : M (option bool) :=
  emit AskYesNoCancel ;; ret (yesnocancel e).
Definition showerror : M unit := emit ShowError.
Definition quit : M unit := emit Quit.

End IO.

(** ** Windows.py *)

Module Windows.

Definition save_as_file (e : env) : M unit :=
  file_path <- IO.asksaveasfilename e ;;
  if truthy file_path then
    catch
      (content <- Tk.text_get_1_END ;;
       IO.open_w e file_path ;;
       IO.file_write e file_path content ;;
       modify (with_current_file (Some file_path)) ;;
       Tk.edit_modified_set false)
      (fun _ => IO.showerror)
  else ret tt.

Definition save_file (e : env) : M unit :=
  current <- get current_file ;;
  if truthy_opt current then
    catch
      (content <- Tk.text_get_1_END ;;
       IO.open_w e (default [] current) ;;
       IO.file_write e (default [] current) content ;;
       Tk.edit_modified_set false)
      (fun _ => IO.showerror)
  else save_as_file e.

Definition check_unsaved_changes (e : env) : M bool :=
  dirty <- Tk.edit_modified ;;
  if dirty then
    response <- IO.askyesnocancel e ;;
    match response with
    | None => ret false
    | Some true =>
        save_file e ;;
        still_dirty <- Tk.edit_modified ;;
        ret (negb still_dirty)
    | Some false =>
        Tk.edit_modified_set false ;;
        ret true
    end
  else ret true.

Definition new_file (e : env) : M unit :=
  proceed <- check_unsaved_changes e ;;
  if proceed then
    Tk.text_delete_1_END ;;
    modify (with_current_file None)
  else ret tt.

(** Only UTF-8 is tried, and the modified flag is not reset after the
    insertion. *)
Definition open_file (e : env) : M unit :=
  proceed <- check_unsaved_changes e ;;
  if proceed then
    file_path <- IO.askopenfilename e ;;
    if truthy file_path then
      catch
        (content <- IO.read_text e file_path Codec.utf_8 ;;
         Tk.text_delete_1_END ;;
         Tk.text_insert_1 content ;;
         modify (with_current_file (Some file_path)))
        (fun _ => IO.showerror)
    else ret tt
  else ret tt.

Definition exit_app (e : env) : M unit :=
  proceed <- check_unsaved_changes e ;;
  if proceed then IO.quit else ret tt.

End Windows.

(** ** macos.py *)

Module MacOS.

Definition save_as_file (e : env) : M unit :=
  file_path <- IO.asksaveasfilename e ;;
  if truthy file_path then
    catch
      (content <- Tk.text_get_1_END ;;
       IO.open_w e file_path ;;
       IO.file_write e file_path content ;;
       modify (with_current_file (Some file_path)) ;;
       Tk.edit_modified_set false)
      (fun _ => IO.showerror)
  else ret tt.

Definition save_file (e : env) : M unit :=
  current <- get current_file ;;
  if truthy_opt current then
    catch
      (content <- Tk.text_get_1_END ;;
       IO.open_w e (default [] current) ;;
       IO.file_write e (default [] current) content ;;
       Tk.edit_modified_set false)
      (fun _ => IO.showerror)
  else save_as_file e.

Definition check_unsaved_changes (e : env) : M bool :=
  dirty <- Tk.edit_modified ;;
  if dirty then
    response <- IO.askyesnocancel e ;;
    match response with
    | None => ret false
    | Some true =>
        save_file e ;;
        still_dirty <- Tk.edit_modified ;;
        ret (negb still_dirty)
    | Some false =>
        Tk.edit_modified_set false ;;
        ret true
    end
  else ret true.

Definition new_file (e : env) : M unit :=
  proceed <- check_unsaved_changes e ;;
  if proceed then
    Tk.text_delete_1_END ;;
    modify (with_current_file None)
  else ret tt.

(** The body shared by the UTF-8 attempt and the Latin-1 retry. *)
Definition show (e : env) (file_path : str) (enc : Codec.encoding) : M unit :=
  content <- IO.read_text e file_path enc ;;
  Tk.text_delete_1_END ;;
  Tk.text_insert_1 content ;;
  modify (with_current_file (Some file_path)) ;;
  Tk.edit_modified_set false.

Definition open_file (e : env) : M unit :=
  proceed <- check_unsaved_changes e ;;
  if proceed then
    file_path <- IO.askopenfilename e ;;
    if truthy file_path then
      catch
        (show e file_path Codec.utf_8)
        (fun x =>
           match x with
           | UnicodeDecodeError =>
               catch (show e file_path Codec.latin_1) (fun _ => IO.showerror)
           | _ => IO.showerror
           end)
    else ret tt
  else ret tt.

Definition exit_app (e : env) : M unit :=
  proceed <- check_unsaved_changes e ;;
  if proceed then IO.quit else ret tt.

End MacOS.

(** ** linux.py *)

Module Linux.

(** [list.remove(x)]: the first occurrence goes. *)
Fixpoint remove (x : str) (l : list (list N)) : list (list N) :=
  match l with
  | [] => []
  | y :: r => if decide (x = y) then r else y :: remove x r
  end.

(** [l[:n]] for a Python integer [n]; a negative [n] counts from the end. *)
Definition slice_to {A} (n : Z) (l : list A) : list A :=
  if (n <? 0)%Z then take (length l - Z.to_nat (- n)) l
  else take (Z.to_nat n) l.

(** [for file in self.recent_files: f.write(file + '\n')] on the list file,
    which is opened without [encoding=]. *)
Fixpoint write_lines (e : env) (path : str) (l : list (list N)) : M unit :=
  match l with
  | [] => ret tt
  | file :: rest =>
      IO.file_write_default e path (file ++ [LF]) ;;
      write_lines e path rest
  end.

Definition add_to_recent_files (e : env) (filepath : str) : M unit :=
  modify (fun w =>
    if bool_decide (filepath ∈ recent_files w)
    then with_recent_files (remove filepath (recent_files w)) w else w) ;;
  modify (fun w => with_recent_files (filepath :: recent_files w) w) ;;
  max <- match max_files e with
         | Some n => ret n
         | None => raise ValueError
         end ;;
  modify (fun w => with_recent_files (slice_to max (recent_files w)) w) ;;
  IO.open_w e (recent_files_file e) ;;
  recent <- get recent_files ;;
  write_lines e (recent_files_file e) recent.

Definition encodings : list Codec.encoding :=
  [Codec.utf_8; Codec.cp1251; Codec.iso_8859_1].

(** The [for encoding in [...]] loop of [load_file]: [break] after the first
    encoding that decodes, [continue] on [UnicodeDecodeError], and the
    [else] branch when the list is used up. *)
Fixpoint load_file_for (e : env) (filepath : str)
         (encs : list Codec.encoding) : M unit :=
  match encs with
  | [] => IO.showerror
  | encoding :: rest =>
      catch
        (content <- IO.read_text e filepath encoding ;;
         Tk.text_delete_1_END ;;
         Tk.text_insert_1 content ;;
         modify (with_current_file (Some filepath)) ;;
         add_to_recent_files e filepath ;;
         Tk.edit_modified_set false)
        (fun x =>
           match x with
           | UnicodeDecodeError => load_file_for e filepath rest
           | _ => raise x
           end)
  end.

Definition load_file (e : env) (filepath : str) : M unit :=
  catch (load_file_for e filepath encodings) (fun _ => IO.showerror).

Definition save_as_file (e : env) : M unit :=
  filepath <- IO.asksaveasfilename e ;;
  if truthy filepath then
    catch
      (content <- Tk.text_get_1_END ;;
       IO.open_w e filepath ;;
       IO.file_write e filepath content ;;
       modify (with_current_file (Some filepath)) ;;
       Tk.edit_modified_set false ;;
       add_to_recent_files e filepath)
      (fun _ => IO.showerror)
  else ret tt.

Definition save_file (e : env) : M unit :=
  current <- get current_file ;;
  if truthy_opt current then
    catch
      (content <- Tk.text_get_1_END ;;
       IO.open_w e (default [] current) ;;
       IO.file_write e (default [] current) content ;;
       Tk.edit_modified_set false)
      (fun _ => IO.showerror)
  else save_as_file e.

Definition check_unsaved_changes (e : env) : M bool :=
  dirty <- Tk.edit_modified ;;
  if dirty then
    response <- IO.askyesnocancel e ;;
    match response with
    | None => ret false
    | Some true =>
        save_file e ;;
        still_dirty <- Tk.edit_modified ;;
        ret (negb still_dirty)
    | Some false =>
        Tk.edit_modified_set false ;;
        ret true
    end
  else ret true.

Definition new_file (e : env) : M unit :=
  proceed <- check_unsaved_changes e ;;
  if proceed then
    Tk.text_delete_1_END ;;
    modify (with_current_file None)
  else ret tt.

(** [open_file(filepath=None)]: the menu and the shortcut pass nothing. *)
Definition open_file (e : env) (filepath : option (list N)) : M unit :=
  proceed <- check_unsaved_changes e ;;
  if proceed then
    filepath <- (if truthy_opt filepath then ret (default [] filepath)
                 else IO.askopenfilename e) ;;
    if truthy filepath then load_file e filepath else ret tt
  else ret tt.

End Linux.

(** ** Running a command *)

Definition result {A} (c : M A) (w : world) : outcome A := fst (c w).
Definition after {A} (c : M A) (w : world) : world := snd (c w).

(** The events a command added to the trace, oldest first. *)
Definition events {A} (c : M A) (w : world) : list event :=
  rev (take (length (trace (after c w)) - length (trace w)) (trace (after c w))).

Definition hello : str := py "hello".
Definition tmp_a : str := py "/tmp/a.txt".
Definition open_env : env :=
  Env (Some true) tmp_a tmp_a (fun _ => true) (fun _ => true) [LF]
      (py "/home/u/.config/linux-notepad/recent_files.txt") (Some 10%Z)
      Codec.utf8_encode_char Codec.utf8_decode.
Definition fresh : world := World [] false None [] ∅ [].
Definition typed_hello : world := World hello true None [] ∅ [].

(** The scenario of the specification: a new document, "hello" typed, New,
    Save, the chooser answers /tmp/a.txt.  The file receives the text and
    its final newline; the deletion that empties the widget sets the
    modified flag again. *)
Example scenario_new_after_hello :
  session (after (Windows.new_file open_env) typed_hello) = ([], None, true)
  /\ files (after (Windows.new_file open_env) typed_hello) !! tmp_a
     = Some (py "hello" ++ [LF])
  /\ events (Windows.new_file open_env) typed_hello
     = [AskYesNoCancel; AskSaveAsFilename; OpenWrite tmp_a;
        Write tmp_a (py "hello" ++ [LF])].
Proof. vm_compute. auto. Qed.

(** ** The gate on a clean session *)

Ltac split_world w :=
  let c := fresh "buf" in
  let m := fresh "dirty" in
  let cf := fresh "cur" in
  let rf := fresh "recent" in
  let fs := fresh "store" in
  let tr := fresh "tr" in
  destruct w as [c m cf rf fs tr]; cbn [modified chars current_file
    recent_files files trace session] in *.

Lemma windows_gate_clean e w :
  modified w = false -> Windows.check_unsaved_changes e w = (Return true, w).
Proof. split_world w. intros ->. reflexivity. Qed.

Lemma macos_gate_clean e w :
  modified w = false -> MacOS.check_unsaved_changes e w = (Return true, w).
Proof. split_world w. intros ->. reflexivity. Qed.

Lemma linux_gate_clean e w :
  modified w = false -> Linux.check_unsaved_changes e w = (Return true, w).
Proof. split_world w. intros ->. reflexivity. Qed.

(** C3. On a session whose modified flag is false the gate of each editor
    returns True at once: the world after the call is the world before it, so
    the session is untouched, the storage is untouched and the trace has no
    new event (no prompt, no dialog, no save). *)
Theorem gate_clean_is_silent (e : env) (w : world) :
  modified w = false ->
  Windows.check_unsaved_changes e w = (Return true, w)
  /\ MacOS.check_unsaved_changes e w = (Return true, w)
  /\ Linux.check_unsaved_changes e w = (Return true, w).
Proof.
  intros H. split; [|split].
  - now apply windows_gate_clean.
  - now apply macos_gate_clean.
  - now apply linux_gate_clean.
Qed.

Lemma gate_clean_is_silent_witness :
  modified fresh = false
  /\ Windows.check_unsaved_changes open_env fresh = (Return true, fresh)
  /\ MacOS.check_unsaved_changes open_env fresh = (Return true, fresh)
  /\ Linux.check_unsaved_changes open_env fresh = (Return true, fresh).
Proof. split; [reflexivity | apply (gate_clean_is_silent open_env fresh); reflexivity]. Defined.

(** ** Cancel *)

Definition cancels (e : env) : Prop := yesnocancel e = None.

Lemma windows_gate_cancel e w :
  modified w = true -> cancels e ->
  Windows.check_unsaved_changes e w = (Return false, with_event AskYesNoCancel w).
Proof.
  unfold cancels. split_world w. intros -> He.
  cbv [Windows.check_unsaved_changes bind Tk.edit_modified get modified
       IO.askyesnocancel emit modify ret].
  rewrite He. reflexivity.
Qed.

Lemma macos_gate_cancel e w :
  modified w = true -> cancels e ->
  MacOS.check_unsaved_changes e w = (Return false, with_event AskYesNoCancel w).
Proof.
  unfold cancels. split_world w. intros -> He.
  cbv [MacOS.check_unsaved_changes bind Tk.edit_modified get modified
       IO.askyesnocancel emit modify ret].
  rewrite He. reflexivity.
Qed.

Lemma linux_gate_cancel e w :
  modified w = true -> cancels e ->
  Linux.check_unsaved_changes e w = (Return false, with_event AskYesNoCancel w).
Proof.
  unfold cancels. split_world w. intros -> He.
  cbv [Linux.check_unsaved_changes bind Tk.edit_modified get modified
       IO.askyesnocancel emit modify ret].
  rewrite He. reflexivity.
Qed.

(** Unfolds the commands down to the primitives of the storage and the
    codecs, which stay folded. *)
Ltac run :=
  cbv [Windows.check_unsaved_changes Windows.save_file Windows.save_as_file
       Windows.new_file Windows.open_file Windows.exit_app
       MacOS.check_unsaved_changes MacOS.save_file MacOS.save_as_file
       MacOS.new_file MacOS.open_file MacOS.exit_app MacOS.show
       Linux.check_unsaved_changes Linux.save_file Linux.save_as_file
       Linux.new_file Linux.open_file Linux.load_file
       Tk.text_get_1_END Tk.text_delete_1_END Tk.text_insert_1
       Tk.edit_modified Tk.edit_modified_set
       IO.read_text IO.open_w IO.file_write IO.asksaveasfilename
       IO.askopenfilename IO.askyesnocancel IO.showerror IO.quit
       bind ret raise catch get modify emit result after
       with_chars with_modified with_current_file with_recent_files
       with_files with_event
       chars modified current_file recent_files files trace session
       truthy truthy_opt default from_option id fst snd negb andb].

(** C2. On a dirty session the answer Cancel makes the gate return False;
    the only change to the world is the prompt recorded in the trace, so
    buffer, path and modified flag are the same.  The callers New, Open and
    Exit then do nothing: the buffer is not cleared, the path is not
    replaced, and [root.quit()] is not called. *)
Theorem cancel_aborts (e : env) (w : world) :
  modified w = true -> cancels e ->
  session (with_event AskYesNoCancel w) = session w
  /\ Windows.check_unsaved_changes e w = (Return false, with_event AskYesNoCancel w)
  /\ Windows.new_file e w = (Return tt, with_event AskYesNoCancel w)
  /\ Windows.open_file e w = (Return tt, with_event AskYesNoCancel w)
  /\ Windows.exit_app e w = (Return tt, with_event AskYesNoCancel w)
  /\ MacOS.check_unsaved_changes e w = (Return false, with_event AskYesNoCancel w)
  /\ MacOS.new_file e w = (Return tt, with_event AskYesNoCancel w)
  /\ MacOS.open_file e w = (Return tt, with_event AskYesNoCancel w)
  /\ MacOS.exit_app e w = (Return tt, with_event AskYesNoCancel w).
Proof.
  intros Hd Hc.
  pose proof (windows_gate_cancel e w Hd Hc) as Hw.
  pose proof (macos_gate_cancel e w Hd Hc) as Hm.
  repeat split; try assumption;
    try (unfold Windows.new_file, Windows.open_file, Windows.exit_app, bind;
         rewrite Hw; reflexivity);
    unfold MacOS.new_file, MacOS.open_file, MacOS.exit_app, bind;
    rewrite Hm; reflexivity.
Qed.

Definition cancel_env : env :=
  Env None tmp_a tmp_a (fun _ => true) (fun _ => true) [LF] [] (Some 10%Z)
      Codec.utf8_encode_char Codec.utf8_decode.

Lemma cancel_aborts_witness :
  Windows.exit_app cancel_env typed_hello
  = (Return tt, with_event AskYesNoCancel typed_hello).
Proof.
  apply (cancel_aborts cancel_env typed_hello); reflexivity.
Defined.

(** ** Discard *)

Definition discards (e : env) : Prop := yesnocancel e = Some false.

(** The world after the answer No: the prompt is in the trace and the
    modified flag is down; nothing else moved. *)
Definition discarded (w : world) : world :=
  with_modified false (with_event AskYesNoCancel w).

Lemma windows_gate_discard e w :
  modified w = true -> discards e ->
  Windows.check_unsaved_changes e w = (Return true, discarded w).
Proof. unfold discards, discarded. split_world w. intros -> He. run. rewrite He. reflexivity. Qed.

Lemma macos_gate_discard e w :
  modified w = true -> discards e ->
  MacOS.check_unsaved_changes e w = (Return true, discarded w).
Proof. unfold discards, discarded. split_world w. intros -> He. run. rewrite He. reflexivity. Qed.

Lemma linux_gate_discard e w :
  modified w = true -> discards e ->
  Linux.check_unsaved_changes e w = (Return true, discarded w).
Proof. unfold discards, discarded. split_world w. intros -> He. run. rewrite He. reflexivity. Qed.

(** C4. On a dirty session the answer No (discard) makes the gate return
    True with the modified flag lowered; buffer and path are unchanged, the
    storage is unchanged, and the prompt is the only event, so no file was
    opened or written.  The guarded action then runs: Exit reaches
    [root.quit()]. *)
Theorem discard_proceeds (e : env) (w : world) :
  modified w = true -> discards e ->
  (Windows.check_unsaved_changes e w = (Return true, discarded w)
   /\ MacOS.check_unsaved_changes e w = (Return true, discarded w)
   /\ Linux.check_unsaved_changes e w = (Return true, discarded w))
  /\ modified (discarded w) = false
  /\ chars (discarded w) = chars w
  /\ current_file (discarded w) = current_file w
  /\ files (discarded w) = files w
  /\ trace (discarded w) = AskYesNoCancel :: trace w
  /\ Windows.exit_app e w = (Return tt, with_event Quit (discarded w))
  /\ MacOS.exit_app e w = (Return tt, with_event Quit (discarded w)).
Proof.
  intros Hd He.
  pose proof (windows_gate_discard e w Hd He) as Hw.
  pose proof (macos_gate_discard e w Hd He) as Hm.
  pose proof (linux_gate_discard e w Hd He) as Hl.
  repeat split; try assumption.
  - unfold Windows.exit_app, bind. rewrite Hw. reflexivity.
  - unfold MacOS.exit_app, bind. rewrite Hm. reflexivity.
Qed.

Definition discard_env : env :=
  Env (Some false) tmp_a tmp_a (fun _ => true) (fun _ => true) [LF] [] (Some 10%Z)
      Codec.utf8_encode_char Codec.utf8_decode.

Lemma discard_proceeds_witness :
  files (discarded typed_hello) = files typed_hello
  /\ Windows.exit_app discard_env typed_hello
     = (Return tt, with_event Quit (discarded typed_hello)).
Proof.
  pose proof (discard_proceeds discard_env typed_hello eq_refl eq_refl) as H.
  split; apply H.
Defined.

(** ** Save *)

Definition says_save (e : env) : Prop := yesnocancel e = Some true.

(** Where [save_file] writes: the current file, or the chooser's answer
    when there is none. *)
Definition save_target (e : env) (w : world) : str :=
  if truthy_opt (current_file w) then default [] (current_file w)
  else save_name e.

(** What [file.write] hands to the file for the text from 1.0 to END. *)
Definition written_bytes (e : env) (w : world) : option (list N) :=
  Codec.utf8_encode (Codec.translate_out (linesep e) (chars w ++ [LF])).

(** The document write goes through: a path is there, [open] accepts it
    and the text can be encoded. *)
Definition write_succeeds (e : env) (w : world) : bool :=
  truthy (save_target e w) && may_write e (save_target e w)
  && match written_bytes e w with Some _ => true | None => false end.

Lemma write_lines_session e path l w :
  session (snd (Linux.write_lines e path l w)) = session w.
Proof.
  revert w. induction l as [|f r IH]; intros w; [reflexivity|].
  cbn [Linux.write_lines]. unfold bind at 1. unfold IO.file_write_default.
  destruct (Codec.charwise_encode _ _); [|reflexivity].
  cbv [bind modify emit]. rewrite IH. reflexivity.
Qed.

Lemma add_to_recent_files_session e filepath w :
  session (snd (Linux.add_to_recent_files e filepath w)) = session w.
Proof.
  split_world w. unfold Linux.add_to_recent_files.
  cbv [bind modify get ret raise IO.open_w emit with_recent_files with_files
       with_event chars modified current_file recent_files files trace].
  destruct (max_files e) as [n|];
    destruct (bool_decide (filepath ∈ recent)); try reflexivity;
    (destruct (may_write e (recent_files_file e)); [|reflexivity]);
    rewrite write_lines_session; reflexivity.
Qed.

(** Case analysis on the answers of the environment, one at a time. *)
Ltac answer e :=
  match goal with
  | |- context [may_write e ?p] => destruct (may_write e p) eqn:?
  | |- context [may_read e ?p] => destruct (may_read e p) eqn:?
  | |- context [save_name e] => destruct (save_name e) eqn:?
  | |- context [open_name e] => destruct (open_name e) eqn:?
  | |- context [Codec.utf8_encode ?s] => destruct (Codec.utf8_encode s) eqn:?
  end.

Ltac crunch e := run; repeat (answer e; run).

(** The bookkeeping of the recent files runs on an unknown list: its
    outcome is split in two and its frame lemma gives the session back. *)
Ltac recent_step e :=
  match goal with
  | |- context [Linux.add_to_recent_files e ?p ?W] =>
      let Hs := fresh "Hs" in
      pose proof (add_to_recent_files_session e p W) as Hs;
      destruct (Linux.add_to_recent_files e p W) as [[[]|?] [? ? ? ? ? ?]];
      cbv [session snd chars modified current_file] in Hs;
      inversion Hs; subst; clear Hs
  end.

Lemma windows_gate_save e w :
  modified w = true -> says_save e ->
  if write_succeeds e w
  then result (Windows.check_unsaved_changes e) w = Return true
       /\ modified (after (Windows.check_unsaved_changes e) w) = false
  else result (Windows.check_unsaved_changes e) w = Return false
       /\ session (after (Windows.check_unsaved_changes e) w) = session w.
Proof.
  unfold says_save, write_succeeds, save_target, written_bytes.
  split_world w. intros -> He. run. rewrite He.
  destruct cur as [[|c p]|]; crunch e; auto.
Qed.

Lemma macos_gate_save e w :
  modified w = true -> says_save e ->
  if write_succeeds e w
  then result (MacOS.check_unsaved_changes e) w = Return true
       /\ modified (after (MacOS.check_unsaved_changes e) w) = false
  else result (MacOS.check_unsaved_changes e) w = Return false
       /\ session (after (MacOS.check_unsaved_changes e) w) = session w.
Proof.
  unfold says_save, write_succeeds, save_target, written_bytes.
  split_world w. intros -> He. run. rewrite He.
  destruct cur as [[|c p]|]; crunch e; auto.
Qed.

Lemma linux_gate_save e w :
  modified w = true -> says_save e ->
  if write_succeeds e w
  then result (Linux.check_unsaved_changes e) w = Return true
       /\ modified (after (Linux.check_unsaved_changes e) w) = false
  else result (Linux.check_unsaved_changes e) w = Return false
       /\ session (after (Linux.check_unsaved_changes e) w) = session w.
Proof.
  unfold says_save, write_succeeds, save_target, written_bytes.
  split_world w. intros -> He. run. rewrite He.
  destruct cur as [[|c p]|]; crunch e; auto; recent_step e; run; auto.
Qed.


Definition aborts (gate : M bool) (w : world) : Prop :=
  result gate w = Return false
  /\ session (after gate w) = session w
  /\ modified (after gate w) = true.

(** A caller of the shape [if gate(): action] stops with the gate. *)
Lemma guarded_stops (gate : M bool) (action : M unit) (w : world) :
  result gate w = Return false ->
  (proceed <- gate ;; if proceed then action else ret tt) w
  = (Return tt, after gate w).
Proof.
  unfold result, after, bind. destruct (gate w) as [[[]|] w']; cbn;
    intros H; try discriminate H; reflexivity.
Qed.

Definition dismiss_env : env :=
  Env (Some true) [] [] (fun _ => true) (fun _ => true) [LF] [] (Some 10%Z)
      Codec.utf8_encode_char Codec.utf8_decode.

(** ** What a save leaves behind *)

(** The world after the document was written to [path]: the flag is down,
    the path is current, the file holds [bs], and the trace shows the
    dialogs [asked] followed by the open and the write. *)
Definition saved (path : str) (bs : list N) (asked : list event)
           (w : world) : world :=
  World (chars w) false (Some path) (recent_files w)
        (<[path := bs]> (files w))
        (Write path bs :: OpenWrite path :: asked ++ trace w).

Ltac tidy_store :=
  repeat first [ rewrite lookup_insert_eq | rewrite insert_insert_eq ];
  cbn [app].

Section SaveOk.

Variables (e : env) (w : world) (path : str) (bs : list N).
Hypothesis Hopen : may_write e path = true.
Hypothesis Hbytes : written_bytes e w = Some bs.

Section CurrentFile.
Hypothesis Hcur : current_file w = Some path.
Hypothesis Hpath : truthy path = true.

Lemma windows_save_file_ok :
  Windows.save_file e w = (Return tt, saved path bs [] w).
Proof using All.
  unfold written_bytes, saved in *. split_world w. subst cur.
  destruct path; [discriminate|].
  run. rewrite Hopen. run. rewrite Hbytes. tidy_store. reflexivity.
Qed.

Lemma macos_save_file_ok :
  MacOS.save_file e w = (Return tt, saved path bs [] w).
Proof using All.
  unfold written_bytes, saved in *. split_world w. subst cur.
  destruct path; [discriminate|].
  run. rewrite Hopen. run. rewrite Hbytes. tidy_store. reflexivity.
Qed.

Lemma linux_save_file_ok :
  Linux.save_file e w = (Return tt, saved path bs [] w).
Proof using All.
  unfold written_bytes, saved in *. split_world w. subst cur.
  destruct path; [discriminate|].
  run. rewrite Hopen. run. rewrite Hbytes. tidy_store. reflexivity.
Qed.
End CurrentFile.

Section Chooser.
Hypothesis Hname : save_name e = path.
Hypothesis Hpath : truthy path = true.

Lemma windows_save_as_file_ok :
  Windows.save_as_file e w
  = (Return tt, saved path bs [AskSaveAsFilename] w).
Proof using All.
  unfold written_bytes, saved in *. split_world w.
  destruct path; [discriminate|].
  run. rewrite Hname. run. rewrite Hopen. run. rewrite Hbytes.
  tidy_store. reflexivity.
Qed.

Lemma macos_save_as_file_ok :
  MacOS.save_as_file e w
  = (Return tt, saved path bs [AskSaveAsFilename] w).
Proof using All.
  unfold written_bytes, saved in *. split_world w.
  destruct path; [discriminate|].
  run. rewrite Hname. run. rewrite Hopen. run. rewrite Hbytes.
  tidy_store. reflexivity.
Qed.

(** linux.py goes on to the recent files, with or without success. *)
Lemma linux_save_as_file_ok :
  Linux.save_as_file e w
  = catch (Linux.add_to_recent_files e path) (fun _ => IO.showerror)
          (saved path bs [AskSaveAsFilename] w).
Proof using All.
  unfold written_bytes, saved in *. split_world w.
  destruct path; [discriminate|].
  run. rewrite Hname. run. rewrite Hopen. run. rewrite Hbytes.
  tidy_store. reflexivity.
Qed.
End Chooser.

End SaveOk.

(** ** Saving twice *)

(** Two calls of [save] in a row, nothing in between. *)
Definition same_write_twice (save : M unit) (path : str) (bs : list N)
           (w : world) : Prop :=
  let w1 := after save w in
  let w2 := after save w1 in
  modified w1 = false
  /\ modified w2 = false
  /\ trace w1 = Write path bs :: OpenWrite path :: trace w
  /\ trace w2 = Write path bs :: OpenWrite path :: trace w1
  /\ files w1 !! path = Some bs
  /\ files w2 = files w1
  /\ session w2 = session w1.

Lemma saved_twice (save : M unit) path bs w :
  save w = (Return tt, saved path bs [] w) ->
  save (saved path bs [] w) = (Return tt, saved path bs [] (saved path bs [] w)) ->
  same_write_twice save path bs w.
Proof.
  intros H1 H2. unfold same_write_twice, after. rewrite H1. cbn [snd].
  rewrite H2. cbn [snd]. unfold saved, session. cbn.
  rewrite lookup_insert_eq, insert_insert_eq. repeat split; reflexivity.
Qed.

(** C9. With a current file that [open] accepts and a text that can be
    encoded, two successive calls of [save_file] each write the same bytes
    to the same path and each leave the modified flag false; the second call
    changes neither the storage nor the session. *)
Theorem save_is_idempotent (e : env) (w : world) (path : str) (bs : list N) :
  current_file w = Some path -> truthy path = true ->
  may_write e path = true -> written_bytes e w = Some bs ->
  same_write_twice (Windows.save_file e) path bs w
  /\ same_write_twice (MacOS.save_file e) path bs w
  /\ same_write_twice (Linux.save_file e) path bs w.
Proof.
  intros Hcur Hpath Hopen Hbytes.
  split; [|split]; apply saved_twice;
    first [ now apply windows_save_file_ok
          | now apply macos_save_file_ok
          | now apply linux_save_file_ok ].
Qed.

Definition hello_at_a : world := World hello true (Some tmp_a) [] ∅ [].

Lemma save_is_idempotent_witness :
  same_write_twice (Windows.save_file open_env) tmp_a (hello ++ [LF]) hello_at_a.
Proof.
  apply (save_is_idempotent open_env hello_at_a tmp_a (hello ++ [LF]));
    reflexivity.
Defined.

(** ** The bytes of a save *)


Lemma translate_out_app linesep (a b : list N) :
  Codec.translate_out linesep (a ++ b)
  = Codec.translate_out linesep a ++ Codec.translate_out linesep b.
Proof. unfold Codec.translate_out. apply flat_map_app. Qed.

Lemma translate_out_LF (s : list N) : Codec.translate_out [LF] s = s.
Proof.
  induction s as [|c s IH]; [reflexivity|].
  unfold Codec.translate_out in *. cbn [flat_map]. rewrite IH.
  destruct (N.eqb_spec c LF) as [->|]; reflexivity.
Qed.


Lemma write_lines_trace e path l w :
  exists evs, trace (snd (Linux.write_lines e path l w)) = evs ++ trace w.
Proof.
  revert w. induction l as [|f r IH]; intros w; [now exists []|].
  cbn [Linux.write_lines]. unfold bind at 1. unfold IO.file_write_default.
  destruct (Codec.charwise_encode _ _) as [bs|]; [|now exists []].
  cbv [bind modify emit].
  match goal with |- context [Linux.write_lines e path r ?W] =>
    destruct (IH W) as [evs Hevs] end.
  rewrite Hevs. exists (evs ++ [Write path bs]).
  rewrite <- app_assoc. reflexivity.
Qed.

Lemma add_to_recent_files_trace e filepath w :
  exists evs,
    trace (snd (Linux.add_to_recent_files e filepath w)) = evs ++ trace w.
Proof.
  split_world w. unfold Linux.add_to_recent_files.
  cbv [bind modify get ret raise IO.open_w emit with_recent_files with_files
       with_event].
  cbn [chars modified current_file recent_files files trace].
  destruct (max_files e) as [n|];
    destruct (bool_decide (filepath ∈ recent)); try (now exists []);
    cbn [chars modified current_file recent_files files trace];
    (destruct (may_write e (recent_files_file e));
     [|now exists [OpenWrite (recent_files_file e)]]);
    match goal with |- context [Linux.write_lines e ?p ?l ?W] =>
      destruct (write_lines_trace e p l W) as [evs Hevs] end;
    rewrite Hevs; exists (evs ++ [OpenWrite (recent_files_file e)]);
    rewrite <- app_assoc; reflexivity.
Qed.






(** ** The gate on the answer Yes *)

(** On the answer Yes the gate is the prompt, then [save_file], then the
    test of the flag that the save left: the save is run in the world with
    the prompt in its trace and ends normally, the world after the gate is
    the world after that save, and the gate says True exactly when that save
    lowered the flag. *)
Definition gate_runs_save (gate : M bool) (save : M unit) (w : world)
  : Prop :=
  let ws := after save (with_event AskYesNoCancel w) in
  result save (with_event AskYesNoCancel w) = Return tt
  /\ gate w = (Return (negb (modified ws)), ws).

(** The dialogs of [save_file]: none with a current file, the chooser
    without. *)
Definition save_dialogs (w : world) : list event :=
  if truthy_opt (current_file w) then [] else [AskSaveAsFilename].

(** The world after a gate whose save went through: the world [saved] on
    top of the prompt. *)
Definition gate_saved_world (e : env) (bs : list N) (w : world) : world :=
  saved (save_target e w) bs (save_dialogs w) (with_event AskYesNoCancel w).

(** The same for linux.py, whose Save As goes on to the recent files: the
    gate says True, the buffer is the same, the target is the current file,
    the flag is down, the trace holds the open and the write of the bytes
    after the prompt and the dialogs, and the target holds the bytes unless
    the bookkeeping wrote over it. *)
Definition gate_saved (gate : M bool) (e : env) (bs : list N) (w : world)
  : Prop :=
  let target := save_target e w in
  let w' := after gate w in
  result gate w = Return true
  /\ session w' = (chars w, Some target, false)
  /\ (exists later,
        trace w'
        = later ++ Write target bs :: OpenWrite target
                :: save_dialogs w ++ AskYesNoCancel :: trace w)
  /\ (truthy_opt (current_file w) = true \/ target <> recent_files_file e ->
      files w' !! target = Some bs).

Lemma windows_gate_runs_save e w :
  modified w = true -> says_save e ->
  gate_runs_save (Windows.check_unsaved_changes e) (Windows.save_file e) w.
Proof.
  unfold says_save, gate_runs_save. split_world w. intros -> He.
  run. rewrite He. destruct cur as [[|c p]|]; crunch e; auto.
Qed.

Lemma macos_gate_runs_save e w :
  modified w = true -> says_save e ->
  gate_runs_save (MacOS.check_unsaved_changes e) (MacOS.save_file e) w.
Proof.
  unfold says_save, gate_runs_save. split_world w. intros -> He.
  run. rewrite He. destruct cur as [[|c p]|]; crunch e; auto.
Qed.

Lemma linux_gate_runs_save e w :
  modified w = true -> says_save e ->
  gate_runs_save (Linux.check_unsaved_changes e) (Linux.save_file e) w.
Proof.
  unfold says_save, gate_runs_save. split_world w. intros -> He.
  run. rewrite He.
  destruct cur as [[|c p]|]; crunch e; auto; recent_step e; run; auto.
Qed.

(** A write that goes through has its target: the current file, or the
    answer of the chooser. *)
Lemma write_succeeds_target e w :
  write_succeeds e w = true ->
  truthy (save_target e w) = true
  /\ may_write e (save_target e w) = true
  /\ (exists bs, written_bytes e w = Some bs)
  /\ (current_file w = Some (save_target e w) /\ save_dialogs w = []
      \/ truthy_opt (current_file w) = false
         /\ save_name e = save_target e w
         /\ save_dialogs w = [AskSaveAsFilename]).
Proof.
  unfold write_succeeds, save_target, save_dialogs. intros H.
  apply andb_prop in H as [H Hb]. apply andb_prop in H as [Ht Ho].
  repeat split; try assumption.
  - destruct (written_bytes e w) as [bs|]; [now exists bs|discriminate].
  - destruct (current_file w) as [[|c p]|]; cbn [truthy_opt truthy default];
      auto.
Qed.

(** Without a current file [save_file] is [save_as_file]. *)
Lemma windows_save_file_chooser e w :
  truthy_opt (current_file w) = false ->
  Windows.save_file e w = Windows.save_as_file e w.
Proof.
  intros H. unfold Windows.save_file, bind, get. now rewrite H.
Qed.

Lemma macos_save_file_chooser e w :
  truthy_opt (current_file w) = false ->
  MacOS.save_file e w = MacOS.save_as_file e w.
Proof.
  intros H. unfold MacOS.save_file, bind, get. now rewrite H.
Qed.

Lemma linux_save_file_chooser e w :
  truthy_opt (current_file w) = false ->
  Linux.save_file e w = Linux.save_as_file e w.
Proof.
  intros H. unfold Linux.save_file, bind, get. now rewrite H.
Qed.

(** The gate, once the save it ran is known to have left [saved]. *)
Lemma gate_runs_save_saved gate save e bs w :
  gate_runs_save gate save w ->
  save (with_event AskYesNoCancel w)
  = (Return tt, gate_saved_world e bs w) ->
  gate w = (Return true, gate_saved_world e bs w).
Proof.
  unfold gate_runs_save, after. intros [_ Hg] Hs. rewrite Hg, Hs.
  reflexivity.
Qed.

(** The bookkeeping of the recent files writes to the list file only. *)
Lemma write_lines_files_other e path l p :
  p <> path ->
  forall w, files (snd (Linux.write_lines e path l w)) !! p = files w !! p.
Proof.
  intros Hp. induction l as [|f r IH]; intros w; [reflexivity|].
  cbn [Linux.write_lines]. unfold bind at 1. unfold IO.file_write_default.
  destruct (Codec.charwise_encode _ _); [|reflexivity].
  cbv [bind modify emit]. rewrite IH. split_world w.
  unfold with_files, with_event.
  cbn [chars modified current_file recent_files files trace].
  now apply lookup_insert_ne.
Qed.

Lemma add_to_recent_files_files_other e filepath p w :
  p <> recent_files_file e ->
  files (snd (Linux.add_to_recent_files e filepath w)) !! p = files w !! p.
Proof.
  intros Hp. split_world w. unfold Linux.add_to_recent_files.
  cbv [bind modify get ret raise IO.open_w emit with_recent_files with_files
       with_event].
  cbn [chars modified current_file recent_files files trace].
  destruct (max_files e) as [n|];
    destruct (bool_decide (filepath ∈ recent)); try reflexivity;
    cbn [chars modified current_file recent_files files trace];
    (destruct (may_write e (recent_files_file e)); [|reflexivity]);
    rewrite write_lines_files_other by assumption;
    cbn [files]; now apply lookup_insert_ne.
Qed.

Lemma gate_saved_of_world gate e bs w :
  gate w = (Return true, gate_saved_world e bs w) ->
  gate_saved gate e bs w.
Proof.
  intros H. unfold gate_saved, result, after. rewrite H.
  unfold gate_saved_world, saved, session.
  cbn [fst snd chars modified current_file files trace with_event].
  repeat split.
  - now exists [].
  - intros _. apply lookup_insert_eq.
Qed.

Lemma linux_gate_saved e w bs :
  modified w = true -> says_save e ->
  write_succeeds e w = true -> written_bytes e w = Some bs ->
  gate_saved (Linux.check_unsaved_changes e) e bs w
  /\ (truthy_opt (current_file w) = true ->
      Linux.check_unsaved_changes e w
      = (Return true, gate_saved_world e bs w)).
Proof.
  intros Hd He Hs Hb.
  pose proof (linux_gate_runs_save e w Hd He) as Hrun.
  destruct (write_succeeds_target e w Hs)
    as (Ht & Ho & _ & [[Hcur Hdlg] | (Hnone & Hname & Hdlg)]).
  - assert (Hg : Linux.check_unsaved_changes e w
                 = (Return true, gate_saved_world e bs w)).
    { apply (gate_runs_save_saved _ (Linux.save_file e)); [assumption|].
      unfold gate_saved_world. rewrite Hdlg.
      now apply linux_save_file_ok. }
    split; [now apply gate_saved_of_world|now intros _].
  - split; [|intros Hc; rewrite Hc in Hnone; discriminate].
    unfold gate_runs_save, after in Hrun. cbv zeta in Hrun.
    destruct Hrun as [_ Hg].
    rewrite linux_save_file_chooser in Hg by exact Hnone.
    rewrite (linux_save_as_file_ok e (with_event AskYesNoCancel w)
               (save_target e w) bs Ho Hb Hname Ht) in Hg.
    unfold gate_saved, result, after. rewrite Hg. clear Hg.
    unfold catch.
    match goal with |- context [Linux.add_to_recent_files e ?p ?W] =>
      pose proof (add_to_recent_files_session e p W) as Hses;
      pose proof (add_to_recent_files_files_other e p (save_target e w) W)
        as Hfiles;
      destruct (add_to_recent_files_trace e p W) as [evs Hevs];
      destruct (Linux.add_to_recent_files e p W) as [[[]|x] w']
    end; cbn [fst snd] in *.
    all: assert (Hses2 : session w' = (chars w, Some (save_target e w), false))
      by (rewrite Hses; now destruct w).
    all: assert (Hmod : modified w' = false)
      by (unfold session in Hses2; congruence).
    all: assert (Htr : trace w'
                       = evs ++ Write (save_target e w) bs
                             :: OpenWrite (save_target e w)
                             :: save_dialogs w ++ AskYesNoCancel :: trace w)
      by (rewrite Hevs, Hdlg; now destruct w).
    all: assert (Hfl : save_target e w <> recent_files_file e ->
                       files w' !! save_target e w = Some bs)
      by (intros Hne; rewrite Hfiles by assumption; unfold saved;
          cbn [files]; apply lookup_insert_eq).
    all: clear Hses Hevs Hfiles.
    + unfold after. cbn [fst snd]. rewrite Hmod.
      split; [reflexivity|]. split; [exact Hses2|]. split; [now exists evs|].
      intros [Hc | Hne]; [rewrite Hc in Hnone; discriminate|now apply Hfl].
    + unfold IO.showerror, emit, modify, after. cbn [fst snd].
      destruct w' as [c' m' cf' rf' fs' tr'].
      unfold with_event, session in *.
      cbn [chars modified current_file recent_files files trace] in *.
      subst m'.
      split; [reflexivity|]. split; [exact Hses2|]. split.
      * exists (ShowError :: evs). now rewrite Htr.
      * intros [Hc | Hne]; [rewrite Hc in Hnone; discriminate|now apply Hfl].
Qed.

(** C1. On a dirty session with the answer Yes the gate of each editor runs
    [save_file] and returns True exactly when that save left the session
    clean.  When the write of the document goes through, the gate returns
    True and the save has happened: the target (the current file, or the
    path from the chooser) holds the text from 1.0 to END, the trace shows
    the open and the write after the prompt, the buffer is the same, the
    target is the current file and the flag is down.  When the write does
    not go through (the chooser was dismissed, [open] refused the path, or
    the text could not be encoded) the gate returns False, buffer, path and
    modified flag are as before, the session is still dirty, and New and
    Exit do nothing after the gate. *)
Theorem save_decides_gate (e : env) (w : world) :
  modified w = true -> says_save e ->
  (gate_runs_save (Windows.check_unsaved_changes e) (Windows.save_file e) w
   /\ gate_runs_save (MacOS.check_unsaved_changes e) (MacOS.save_file e) w
   /\ gate_runs_save (Linux.check_unsaved_changes e) (Linux.save_file e) w)
  /\ (write_succeeds e w = true ->
      exists bs,
        written_bytes e w = Some bs
        /\ Windows.check_unsaved_changes e w
           = (Return true, gate_saved_world e bs w)
        /\ MacOS.check_unsaved_changes e w
           = (Return true, gate_saved_world e bs w)
        /\ gate_saved (Linux.check_unsaved_changes e) e bs w
        /\ (truthy_opt (current_file w) = true ->
            Linux.check_unsaved_changes e w
            = (Return true, gate_saved_world e bs w)))
  /\ (write_succeeds e w = false ->
     aborts (Windows.check_unsaved_changes e) w
     /\ aborts (MacOS.check_unsaved_changes e) w
     /\ aborts (Linux.check_unsaved_changes e) w
     /\ Windows.new_file e w
        = (Return tt, after (Windows.check_unsaved_changes e) w)
     /\ Windows.exit_app e w
        = (Return tt, after (Windows.check_unsaved_changes e) w)
     /\ MacOS.exit_app e w
        = (Return tt, after (MacOS.check_unsaved_changes e) w)
     /\ Linux.new_file e w
        = (Return tt, after (Linux.check_unsaved_changes e) w)).
Proof.
  intros Hd He.
  pose proof (windows_gate_runs_save e w Hd He) as Rw.
  pose proof (macos_gate_runs_save e w Hd He) as Rm.
  pose proof (linux_gate_runs_save e w Hd He) as Rl.
  split; [auto|]. split; intros Hs.
  - destruct (write_succeeds_target e w Hs) as (Ht & Ho & [bs Hb] & Hcases).
    exists bs. split; [assumption|].
    destruct (linux_gate_saved e w bs Hd He Hs Hb) as [Hl1 Hl2].
    split; [|split; [|split; [exact Hl1|exact Hl2]]].
    + apply (gate_runs_save_saved _ (Windows.save_file e)); [assumption|].
      unfold gate_saved_world.
      destruct Hcases as [[Hcur Hdlg] | (Hnone & Hname & Hdlg)]; rewrite Hdlg.
      * now apply windows_save_file_ok.
      * rewrite windows_save_file_chooser by exact Hnone.
        now apply windows_save_as_file_ok.
    + apply (gate_runs_save_saved _ (MacOS.save_file e)); [assumption|].
      unfold gate_saved_world.
      destruct Hcases as [[Hcur Hdlg] | (Hnone & Hname & Hdlg)]; rewrite Hdlg.
      * now apply macos_save_file_ok.
      * rewrite macos_save_file_chooser by exact Hnone.
        now apply macos_save_as_file_ok.
  - pose proof (windows_gate_save e w Hd He) as Hw.
    pose proof (macos_gate_save e w Hd He) as Hm.
    pose proof (linux_gate_save e w Hd He) as Hl.
    rewrite Hs in Hw, Hm, Hl. unfold aborts.
    destruct Hw as [Hw1 Hw2], Hm as [Hm1 Hm2], Hl as [Hl1 Hl2].
    assert (Hmod : forall w', session w' = session w -> modified w' = true).
    { intros w' E. unfold session in E. inversion E. congruence. }
    repeat split; auto; now apply guarded_stops.
Qed.

Lemma save_decides_gate_witness :
  Windows.check_unsaved_changes open_env typed_hello
  = (Return true,
     saved tmp_a (hello ++ [LF]) [AskSaveAsFilename]
       (with_event AskYesNoCancel typed_hello))
  /\ aborts (Linux.check_unsaved_changes dismiss_env) typed_hello.
Proof.
  split.
  - destruct (proj1 (proj2 (save_decides_gate open_env typed_hello
                              eq_refl eq_refl)) eq_refl)
      as (bs & Hbs & Hw & _).
    vm_compute in Hbs. injection Hbs as <-. exact Hw.
  - apply (save_decides_gate dismiss_env typed_hello); reflexivity.
Defined.

(** ** The recent files of linux.py *)

(** A path can be written as a line of the recent-files list. *)
Definition line_encodable (e : env) (f : list N) : Prop :=
  is_Some (Codec.charwise_encode (locale_encode e)
             (Codec.translate_out (linesep e) (f ++ [LF]))).

(** The bookkeeping of the recent files can go through: the configured
    limit is an integer, the list file can be opened, every path can be
    encoded. *)
Definition recent_ok (e : env) (filepath : str) (w : world) : Prop :=
  is_Some (max_files e)
  /\ may_write e (recent_files_file e) = true
  /\ Forall (line_encodable e) (filepath :: recent_files w).

Lemma write_lines_outcome e path l w :
  (fst (Linux.write_lines e path l w) = Return tt
   \/ fst (Linux.write_lines e path l w) = Raise UnicodeEncodeError)
  /\ (Forall (line_encodable e) l ->
      fst (Linux.write_lines e path l w) = Return tt).
Proof.
  revert w. induction l as [|f r IH]; intros w.
  - split; [left|]; reflexivity.
  - cbn [Linux.write_lines]. unfold bind, IO.file_write_default.
    destruct (Codec.charwise_encode _ _) as [bs|] eqn:E.
    + cbv [bind modify emit].
      match goal with |- context [Linux.write_lines e path r ?W] =>
        destruct (IH W) as [H1 H2] end.
      split; [exact H1|]. intros HF. apply H2. now inversion HF.
    + split; [now right|]. intros HF. inversion HF as [|? ? Hf _]; subst.
      unfold line_encodable in Hf. rewrite E in Hf. now destruct Hf.
Qed.

Lemma remove_Forall (P : list N -> Prop) x l :
  Forall P l -> Forall P (Linux.remove x l).
Proof.
  induction 1 as [|y l Hy Hl IH]; cbn [Linux.remove]; [constructor|].
  destruct (decide (x = y)); [assumption|now constructor].
Qed.

Lemma slice_to_Forall {A} (P : A -> Prop) n l :
  Forall P l -> Forall P (Linux.slice_to n l).
Proof.
  intros H. unfold Linux.slice_to. destruct (n <? 0)%Z; now apply Forall_take.
Qed.

Lemma add_to_recent_files_outcome e filepath w :
  fst (Linux.add_to_recent_files e filepath w) <> Raise UnicodeDecodeError
  /\ (recent_ok e filepath w ->
      fst (Linux.add_to_recent_files e filepath w) = Return tt).
Proof.
  unfold recent_ok. split_world w. unfold Linux.add_to_recent_files.
  cbv [bind modify get ret raise IO.open_w emit with_recent_files with_files
       with_event].
  cbn [chars modified current_file recent_files files trace].
  destruct (max_files e) as [n|].
  2:{ destruct (bool_decide _); cbn [fst];
        (split; [discriminate|intros [[? [=]] _]]). }
  assert (HF : Forall (line_encodable e) (filepath :: recent) ->
               Forall (line_encodable e)
                 (Linux.slice_to n (filepath :: Linux.remove filepath recent))
               /\ Forall (line_encodable e)
                    (Linux.slice_to n (filepath :: recent))).
  { intros H. inversion H; subst.
    split; apply slice_to_Forall; constructor; auto using remove_Forall. }
  destruct (bool_decide (filepath ∈ recent));
    cbn [chars modified current_file recent_files files trace];
    (destruct (may_write e (recent_files_file e));
     [|cbn [fst]; (split; [discriminate|intros (_ & [=] & _)])]);
    match goal with |- context [Linux.write_lines e ?p ?l ?W] =>
      destruct (write_lines_outcome e p l W) as [[H1|H1] H2] end;
    (split; [rewrite H1; discriminate|]);
    intros (_ & _ & H); apply H2; now apply HF.
Qed.

(** ** Loading: the ordered fallback of encodings *)

(** The policy in the words of the specification: of a fixed ordered list,
    the first encoding that decodes the bytes without error. *)
Fixpoint first_decoding (encs : list Codec.encoding) (bs : list N)
  : option (Codec.encoding * list N) :=
  match encs with
  | [] => None
  | enc :: rest =>
      match Codec.decode enc bs with
      | Some text => Some (enc, text)
      | None => first_decoding rest bs
      end
  end.

(** An encoding wins as soon as everything listed before it fails: a later
    one is never used in its place. *)
Lemma first_decoding_earliest encs pre enc post bs text :
  encs = pre ++ enc :: post ->
  Forall (fun x => Codec.decode x bs = None) pre ->
  Codec.decode enc bs = Some text ->
  first_decoding encs bs = Some (enc, text).
Proof.
  intros -> Hpre Henc. induction Hpre as [|x pre Hx _ IH]; cbn.
  - now rewrite Henc.
  - now rewrite Hx.
Qed.

(** The last candidate of linux.py and of macos.py accepts every file. *)
Lemma decode_latin1_total enc bs :
  enc = Codec.iso_8859_1 \/ enc = Codec.latin_1 ->
  Codec.decode enc bs = Some bs.
Proof. intros [->| ->]; reflexivity. Qed.

Lemma first_decoding_linux_total bs :
  is_Some (first_decoding Linux.encodings bs).
Proof.
  cbn. destruct (Codec.utf8_decode bs); [eauto|].
  destruct (Codec.charmap_decode _ bs); eauto.
Qed.

(** As [recent_step], keeping what is known of the outcome. *)
Ltac recent_cases e Hne Hok :=
  match goal with
  | |- context [Linux.add_to_recent_files e ?p ?W] =>
      let Hs := fresh "Hs" in
      pose proof (add_to_recent_files_session e p W) as Hs;
      pose proof (add_to_recent_files_outcome e p W) as [Hne Hok];
      destruct (Linux.add_to_recent_files e p W) as [[[]|[]] [? ? ? ? ? ?]];
      cbv [session snd fst chars modified current_file] in Hs, Hne, Hok;
      inversion Hs; subst; clear Hs
  end.

Section LinuxLoad.

Variables (e : env) (filepath : str) (bs : list N).
Hypothesis Hread : may_read e filepath = true.

(** The state of the session when the loop has found its encoding. *)
Definition shows (text : list N) (r : outcome unit * world) : Prop :=
  chars (snd r) = Codec.universal_newlines text
  /\ current_file (snd r) = Some filepath.

(** The command ended normally with the flag down. *)
Definition clean_return (r : outcome unit * world) : Prop :=
  fst r = Return tt /\ modified (snd r) = false.

Lemma linux_load_file_for_first encs :
  forall w enc text,
    files w !! filepath = Some bs ->
    first_decoding encs bs = Some (enc, text) ->
    let r := Linux.load_file_for e filepath encs w in
    shows text r
    /\ (clean_return r \/ exists x, fst r = Raise x)
    /\ (recent_ok e filepath w -> clean_return r).
Proof using Hread.
  unfold shows, clean_return.
  induction encs as [|enc0 rest IH]; intros w enc text Hfile Hfirst;
    [discriminate|].
  cbn [first_decoding] in Hfirst. cbn [Linux.load_file_for].
  split_world w. run. rewrite Hfile, Hread.
  destruct (Codec.decode enc0 bs) as [s|] eqn:Hdec.
  - injection Hfirst as <- <-.
    destruct buf, (Codec.universal_newlines s); run; rewrite ?app_nil_r.
    all: recent_cases e Hne Hok; try congruence; run.
    all: repeat split; eauto.
    all: match goal with Hr : recent_ok _ _ _ |- _ =>
           now specialize (Hok Hr) end.
  - run.
    exact (IH (World buf dirty cur recent store (OpenRead filepath :: tr))
              enc text Hfile Hfirst).
Qed.

(** [load_file] on a file that can be read: the text of the first
    candidate that decodes is shown and the path is current; the command
    itself never raises. *)
Lemma linux_load_file_first w enc text :
  files w !! filepath = Some bs ->
  first_decoding Linux.encodings bs = Some (enc, text) ->
  let r := Linux.load_file e filepath w in
  shows text r
  /\ fst r = Return tt
  /\ (modified (snd r) = false \/ exists evs, trace (snd r) = ShowError :: evs)
  /\ (recent_ok e filepath w -> modified (snd r) = false).
Proof using Hread.
  intros Hfile Hfirst.
  destruct (linux_load_file_for_first Linux.encodings w enc text Hfile Hfirst)
    as ([Hc Hp] & Hcases & Hok).
  unfold shows, clean_return, Linux.load_file, catch in *.
  destruct (Linux.load_file_for e filepath Linux.encodings w)
    as [[[]|x] [? ? ? ? ? ?]]; cbn in *.
  - repeat split; auto.
    + destruct Hcases as [[_ ?]|[? [=]]]; auto.
    + intros Hr. now apply Hok.
  - repeat split; eauto.
    intros Hr. destruct (Hok Hr) as [[=] _].
Qed.

End LinuxLoad.

(** A caller of the shape [if gate(): action] runs the action in the world
    the gate left when the gate says True. *)
Lemma guarded_runs (gate : M bool) (action : M unit) (w : world) :
  result gate w = Return true ->
  (proceed <- gate ;; if proceed then action else ret tt) w
  = action (after gate w).
Proof.
  unfold result, after, bind. destruct (gate w) as [[[]|] w']; cbn;
    intros H; try discriminate H; reflexivity.
Qed.

(** The world after [show] found its text. *)
Definition shown (path : str) (text : list N) (reads : list event)
           (w : world) : world :=
  World (Codec.universal_newlines text) false (Some path) (recent_files w)
        (files w) (reads ++ trace w).

Section MacOpen.

Variables (e : env) (path : str) (bs : list N).
Hypothesis Hname : open_name e = path.
Hypothesis Hpath : truthy path = true.

(** The part of [open_file] behind the gate. *)
Definition macos_open_body : M unit :=
  file_path <- IO.askopenfilename e ;;
  if truthy file_path then
    catch
      (MacOS.show e file_path Codec.utf_8)
      (fun x =>
         match x with
         | UnicodeDecodeError =>
             catch (MacOS.show e file_path Codec.latin_1)
                   (fun _ => IO.showerror)
         | _ => IO.showerror
         end)
  else ret tt.

Lemma macos_open_file_body w :
  result (MacOS.check_unsaved_changes e) w = Return true ->
  MacOS.open_file e w
  = macos_open_body (after (MacOS.check_unsaved_changes e) w).
Proof. intros H. unfold MacOS.open_file. now rewrite guarded_runs. Qed.

Lemma macos_open_body_first w enc text :
  may_read e path = true ->
  files w !! path = Some bs ->
  first_decoding [Codec.utf_8; Codec.latin_1] bs = Some (enc, text) ->
  macos_open_body w
  = (Return tt,
     shown path text
       (match enc with
        | Codec.utf_8 => [OpenRead path; AskOpenFilename]
        | _ => [OpenRead path; OpenRead path; AskOpenFilename]
        end) w).
Proof using Hname Hpath.
  intros Hread Hfile Hfirst. unfold macos_open_body, shown.
  split_world w. destruct path; [discriminate|].
  cbn [first_decoding] in Hfirst. run. rewrite Hname. run.
  rewrite Hfile, Hread.
  destruct (Codec.decode Codec.utf_8 bs) as [s|] eqn:Hdec.
  - injection Hfirst as <- <-.
    destruct buf, (Codec.universal_newlines s); run; rewrite ?app_nil_r;
      reflexivity.
  - run. rewrite ?Hfile, ?Hread. run.
    change (Codec.decode Codec.latin_1 bs) with (Some bs) in *.
    injection Hfirst as <- <-.
    destruct buf, (Codec.universal_newlines bs); run; rewrite ?app_nil_r;
      reflexivity.
Qed.

(** A file that is missing or that [open] refuses: the error box, and
    nothing else. *)
Lemma macos_open_body_unreadable w :
  files w !! path = None \/ may_read e path = false ->
  macos_open_body w
  = (Return tt,
     with_event ShowError
       (with_event (OpenRead path) (with_event AskOpenFilename w))).
Proof using Hname Hpath.
  intros H. unfold macos_open_body. split_world w.
  destruct path; [discriminate|]. run. rewrite Hname. run.
  destruct (store !! (n :: l)) eqn:Hfile.
  - destruct H as [ [=] | Hr ]. rewrite Hr. reflexivity.
  - reflexivity.
Qed.

End MacOpen.

Lemma linux_load_file_unreadable e filepath w :
  files w !! filepath = None \/ may_read e filepath = false ->
  Linux.load_file e filepath w
  = (Return tt, with_event ShowError (with_event (OpenRead filepath) w)).
Proof.
  intros H. split_world w. unfold Linux.load_file, Linux.encodings.
  cbn [Linux.load_file_for]. run.
  destruct (store !! filepath) eqn:Hfile.
  - destruct H as [ [=] | Hr ]. rewrite Hr. reflexivity.
  - reflexivity.
Qed.

(** A file of one byte 0xE9: not UTF-8, the letter U+0439 in cp1251. *)
Definition legacy_file : str := py "/tmp/legacy.txt".
Definition legacy_world : world :=
  World hello false None [] {[ legacy_file := [0xE9] ]} [].
Definition legacy_env : env :=
  Env None [] legacy_file (fun _ => true) (fun _ => true) [LF]
      (py "/home/u/.config/linux-notepad/recent_files.txt") (Some 10%Z)
      Codec.utf8_encode_char Codec.utf8_decode.

(** ** Loading: failures *)

(** The part of [open_file] of Windows.py behind the gate. *)
Definition windows_open_body (e : env) : M unit :=
  file_path <- IO.askopenfilename e ;;
  if truthy file_path then
    catch
      (content <- IO.read_text e file_path Codec.utf_8 ;;
       Tk.text_delete_1_END ;;
       Tk.text_insert_1 content ;;
       modify (with_current_file (Some file_path)))
      (fun _ => IO.showerror)
  else ret tt.

Lemma windows_open_file_body e w :
  result (Windows.check_unsaved_changes e) w = Return true ->
  Windows.open_file e w
  = windows_open_body e (after (Windows.check_unsaved_changes e) w).
Proof. intros H. unfold Windows.open_file. now rewrite guarded_runs. Qed.

(** Windows.py tries UTF-8 only: a file that is missing, refused by [open]
    or not valid UTF-8 gives the error box, and nothing else. *)
Lemma windows_open_body_refused e path w :
  open_name e = path -> truthy path = true ->
  files w !! path = None \/ may_read e path = false
  \/ (exists bs, files w !! path = Some bs /\ Codec.utf8_decode bs = None) ->
  windows_open_body e w
  = (Return tt,
     with_event ShowError
       (with_event (OpenRead path) (with_event AskOpenFilename w))).
Proof.
  intros Hname Hpath H. unfold windows_open_body. split_world w.
  destruct path as [|c p]; [discriminate|]. run. rewrite Hname. run.
  destruct (store !! (c :: p)) as [bs|] eqn:Hfile; [|reflexivity].
  destruct (may_read e (c :: p)) eqn:Hread; [|reflexivity].
  destruct H as [ [=] | [ [=] | (bs' & [= <-] & Hdec) ] ].
  cbv [Codec.decode]. rewrite Hdec. reflexivity.
Qed.

(** No byte sequence is invalid in every candidate encoding: the last
    candidate of either list decodes everything, so a file that can be read
    is never refused for its encoding. *)
Lemma encodings_never_exhausted :
  ~ (exists bs, first_decoding Linux.encodings bs = None)
  /\ ~ (exists bs, first_decoding [Codec.utf_8; Codec.latin_1] bs = None)
  /\ ~ (exists e w filepath bs,
          files w !! filepath = Some bs /\ may_read e filepath = true
          /\ current_file (after (Linux.load_file e filepath) w)
             <> Some filepath).
Proof.
  split; [|split].
  - intros [bs H]. destruct (first_decoding_linux_total bs) as [x Hx]. congruence.
  - intros [bs H]. cbn in H. destruct (Codec.utf8_decode bs); discriminate.
  - intros (e & w & filepath & bs & Hfile & Hread & Hcur).
    destruct (first_decoding Linux.encodings bs) as [[enc text]|] eqn:Hfirst.
    + destruct (linux_load_file_first e filepath bs Hread w enc text Hfile Hfirst)
        as ([_ Hp] & _).
      now apply Hcur.
    + destruct (first_decoding_linux_total bs) as [x Hx]. congruence.
Qed.

(** C6, as the code has it.  Every byte sequence decodes under the last
    candidate of linux.py and of macos.py, so these two load every file they
    can read and never report that the encodings are used up.  When the read
    itself fails (the file is missing or [open] refuses it) the command shows
    its error box and leaves buffer, path and modified flag exactly as they
    were.  Windows.py has UTF-8 as its only candidate: there bytes that are
    not valid UTF-8 use up the list, and the outcome is the same error box
    with the session untouched. *)
Theorem load_failure_keeps_session :
  (forall bs,
      is_Some (first_decoding Linux.encodings bs)
      /\ is_Some (first_decoding [Codec.utf_8; Codec.latin_1] bs))
  /\ (forall e w filepath,
      files w !! filepath = None \/ may_read e filepath = false ->
      let w' := after (Linux.load_file e filepath) w in
      session w' = session w
      /\ files w' = files w
      /\ trace w' = ShowError :: OpenRead filepath :: trace w)
  /\ (forall e w path,
      result (MacOS.check_unsaved_changes e) w = Return true ->
      open_name e = path -> truthy path = true ->
      let wg := after (MacOS.check_unsaved_changes e) w in
      files wg !! path = None \/ may_read e path = false ->
      let w' := after (MacOS.open_file e) w in
      session w' = session wg
      /\ files w' = files wg
      /\ trace w' = ShowError :: OpenRead path :: AskOpenFilename :: trace wg)
  /\ (forall e w path,
      result (Windows.check_unsaved_changes e) w = Return true ->
      open_name e = path -> truthy path = true ->
      let wg := after (Windows.check_unsaved_changes e) w in
      files wg !! path = None \/ may_read e path = false
      \/ (exists bs, files wg !! path = Some bs
                     /\ first_decoding [Codec.utf_8] bs = None) ->
      let w' := after (Windows.open_file e) w in
      session w' = session wg
      /\ files w' = files wg
      /\ trace w' = ShowError :: OpenRead path :: AskOpenFilename :: trace wg).
Proof.
  split; [|split; [|split]].
  - intros bs. split; [apply first_decoding_linux_total|].
    cbn. destruct (Codec.utf8_decode bs); eauto.
  - intros e w filepath H. cbv zeta. unfold after.
    rewrite (linux_load_file_unreadable e filepath w H). repeat split.
  - intros e w path Hgate Hname Hpath wg H. cbv zeta.
    assert (Hopen : MacOS.open_file e w
                    = (Return tt,
                       with_event ShowError
                         (with_event (OpenRead path)
                            (with_event AskOpenFilename wg)))).
    { rewrite (macos_open_file_body e w Hgate).
      exact (macos_open_body_unreadable e path Hname Hpath wg H). }
    change (after (MacOS.open_file e) w) with (snd (MacOS.open_file e w)).
    rewrite Hopen. repeat split.
  - intros e w path Hgate Hname Hpath wg H. cbv zeta.
    assert (Hopen : Windows.open_file e w
                    = (Return tt,
                       with_event ShowError
                         (with_event (OpenRead path)
                            (with_event AskOpenFilename wg)))).
    { rewrite (windows_open_file_body e w Hgate).
      apply (windows_open_body_refused e path wg Hname Hpath).
      destruct H as [H|[H|(bs & Hfile & Hnone)]]; auto.
      right. right. exists bs. split; [assumption|].
      cbn in Hnone. now destruct (Codec.utf8_decode bs). }
    change (after (Windows.open_file e) w) with (snd (Windows.open_file e w)).
    rewrite Hopen. repeat split.
Qed.

Definition missing_env : env :=
  Env None [] (py "/tmp/missing.txt") (fun _ => true) (fun _ => true) [LF]
      [] (Some 10%Z)
      Codec.utf8_encode_char Codec.utf8_decode.

Lemma load_failure_keeps_session_witness :
  session (after (Linux.load_file missing_env (py "/tmp/missing.txt")) hello_at_a)
  = session hello_at_a.
Proof.
  destruct load_failure_keeps_session as (_ & HL & _ & _).
  apply (HL missing_env hello_at_a (py "/tmp/missing.txt")).
  left. reflexivity.
Defined.

(** ** Where the path comes from *)

(** A save-as that went through: the chooser gave [p], [open] accepted it
    and the text was written. *)
Definition save_as_ok (e : env) (w : world) (p : str) : Prop :=
  save_name e = p /\ truthy p = true /\ may_write e p = true
  /\ is_Some (written_bytes e w).

(** A read that went through in world [w]: the file is there, [open]
    accepted it and one of the candidates decoded it. *)
Definition read_ok (encs : list Codec.encoding) (e : env) (w : world)
           (p : str) : Prop :=
  truthy p = true /\ may_read e p = true
  /\ exists bs, files w !! p = Some bs /\ is_Some (first_decoding encs bs).

(** The path after the command is the path before it, or the path of a
    save-as that went through. *)
Definition path_from_save {A} (e : env) (c : M A) (w : world) : Prop :=
  current_file (after c w) = current_file w
  \/ (current_file (after c w) = Some (save_name e)
      /\ save_as_ok e w (save_name e)).

(** ... or the path that the open dialog gave, read with success in the
    world [wr] that the gate left. *)
Definition path_from_open (encs : list Codec.encoding) (e : env)
           (c : M unit) (wr w : world) : Prop :=
  path_from_save e c w
  \/ (current_file (after c w) = Some (open_name e)
      /\ read_ok encs e wr (open_name e)).

(** ... or none, for a fresh document. *)
Definition path_from_new (e : env) (c : M unit) (w : world) : Prop :=
  path_from_save e c w \/ current_file (after c w) = None.

Ltac answer_read e :=
  match goal with
  | |- context [@lookup ?K ?A ?T ?I ?p ?m] => destruct (@lookup K A T I p m) eqn:?
  | |- context [may_read e ?p] => destruct (may_read e p) eqn:?
  | |- context [Codec.utf8_decode ?b] => destruct (Codec.utf8_decode b) eqn:?
  | |- context [Codec.universal_newlines ?s] =>
      destruct (Codec.universal_newlines s)
  end.

Ltac settle_path :=
  unfold save_as_ok, read_ok, written_bytes;
  cbn [chars files first_decoding Codec.decode Codec.latin1_decode];
  repeat match goal with
         | H : Some _ = Some _ |- _ => injection H as H; subst
         end;
  first [ left; reflexivity
        | right; split; [reflexivity|]; repeat split; eauto; fail
        | right; split; [reflexivity|]; repeat split; auto;
          eexists; split; [eassumption|];
          repeat match goal with
                 | H : Codec.utf8_decode _ = _ |- _ => rewrite H
                 end;
          eauto; fail ].

Lemma windows_save_as_path e w : path_from_save e (Windows.save_as_file e) w.
Proof. unfold path_from_save. split_world w. crunch e; settle_path. Qed.

Lemma macos_save_as_path e w : path_from_save e (MacOS.save_as_file e) w.
Proof. unfold path_from_save. split_world w. crunch e; settle_path. Qed.

Lemma linux_save_as_path e w : path_from_save e (Linux.save_as_file e) w.
Proof.
  unfold path_from_save. split_world w. crunch e; try settle_path.
  recent_step e; run; settle_path.
Qed.

Lemma windows_save_path e w : path_from_save e (Windows.save_file e) w.
Proof.
  unfold path_from_save. split_world w.
  destruct cur as [[|c p]|]; crunch e; settle_path.
Qed.

Lemma macos_save_path e w : path_from_save e (MacOS.save_file e) w.
Proof.
  unfold path_from_save. split_world w.
  destruct cur as [[|c p]|]; crunch e; settle_path.
Qed.

Lemma linux_save_path e w : path_from_save e (Linux.save_file e) w.
Proof.
  unfold path_from_save. split_world w.
  destruct cur as [[|c p]|]; crunch e; try settle_path;
    recent_step e; run; settle_path.
Qed.

Lemma windows_gate_path e w :
  path_from_save e (Windows.check_unsaved_changes e) w.
Proof.
  unfold path_from_save. split_world w.
  destruct dirty; [|run; settle_path].
  run. destruct (yesnocancel e) as [[]|]; [|run; settle_path..].
  destruct cur as [[|c p]|]; crunch e; settle_path.
Qed.

Lemma macos_gate_path e w :
  path_from_save e (MacOS.check_unsaved_changes e) w.
Proof.
  unfold path_from_save. split_world w.
  destruct dirty; [|run; settle_path].
  run. destruct (yesnocancel e) as [[]|]; [|run; settle_path..].
  destruct cur as [[|c p]|]; crunch e; settle_path.
Qed.

Lemma linux_gate_path e w :
  path_from_save e (Linux.check_unsaved_changes e) w.
Proof.
  unfold path_from_save. split_world w.
  destruct dirty; [|run; settle_path].
  run. destruct (yesnocancel e) as [[]|]; [|run; settle_path..].
  destruct cur as [[|c p]|]; crunch e; try settle_path;
    recent_step e; run; settle_path.
Qed.

(** What a guarded command leaves: the world of the action when the gate
    says True, the world of the gate otherwise. *)
Lemma guarded_after (gate : M bool) (action : M unit) (w : world) :
  after (proceed <- gate ;; if proceed then action else ret tt) w
  = match result gate w with
    | Return true => after action (after gate w)
    | _ => after gate w
    end.
Proof.
  unfold result, after, bind. destruct (gate w) as [[[]|] w']; reflexivity.
Qed.

(** The parts of [open_file] and [new_file] behind the gate. *)
Definition linux_open_body (e : env) : M unit :=
  filepath <- IO.askopenfilename e ;;
  if truthy filepath then Linux.load_file e filepath else ret tt.

Definition new_body : M unit :=
  Tk.text_delete_1_END ;; modify (with_current_file None).

Lemma new_body_path w : current_file (after new_body w) = None.
Proof. split_world w. unfold new_body. destruct buf; reflexivity. Qed.

Lemma windows_open_body_path e w :
  current_file (after (windows_open_body e) w) = current_file w
  \/ (current_file (after (windows_open_body e) w) = Some (open_name e)
      /\ read_ok [Codec.utf_8] e w (open_name e)).
Proof.
  split_world w. unfold windows_open_body. crunch e; try settle_path.
  all: cbv [Codec.decode]; repeat (answer_read e; run); settle_path.
Qed.

Lemma macos_open_body_path e w :
  current_file (after (macos_open_body e) w) = current_file w
  \/ (current_file (after (macos_open_body e) w) = Some (open_name e)
      /\ read_ok [Codec.utf_8; Codec.latin_1] e w (open_name e)).
Proof.
  split_world w. unfold macos_open_body. crunch e; try settle_path.
  all: cbv [Codec.decode Codec.latin1_decode];
    repeat (answer_read e; run); settle_path.
Qed.

Lemma linux_load_file_path e filepath w :
  truthy filepath = true ->
  current_file (after (Linux.load_file e filepath) w) = current_file w
  \/ (current_file (after (Linux.load_file e filepath) w) = Some filepath
      /\ read_ok Linux.encodings e w filepath).
Proof.
  intros Hpath.
  destruct (files w !! filepath) as [bs|] eqn:Hfile.
  - destruct (may_read e filepath) eqn:Hread.
    + right.
      destruct (first_decoding_linux_total bs) as [[enc text] Hfirst].
      destruct (linux_load_file_first e filepath bs Hread w enc text Hfile Hfirst)
        as ([_ Hp] & _).
      split; [exact Hp|]. unfold read_ok. repeat split; auto.
      exists bs. split; [assumption|]. rewrite Hfirst. eauto.
    + left. unfold after.
      rewrite (linux_load_file_unreadable e filepath w) by now right.
      reflexivity.
  - left. unfold after.
    rewrite (linux_load_file_unreadable e filepath w) by now left.
    reflexivity.
Qed.

Lemma linux_open_body_path e w :
  current_file (after (linux_open_body e) w) = current_file w
  \/ (current_file (after (linux_open_body e) w) = Some (open_name e)
      /\ read_ok Linux.encodings e w (open_name e)).
Proof.
  assert (Hbody : linux_open_body e w
                  = if truthy (open_name e)
                    then Linux.load_file e (open_name e)
                           (with_event AskOpenFilename w)
                    else (Return tt, with_event AskOpenFilename w)).
  { cbv [linux_open_body bind IO.askopenfilename emit modify ret].
    destruct (truthy (open_name e)); reflexivity. }
  unfold after. rewrite Hbody. destruct (truthy (open_name e)) eqn:Hpath.
  - destruct (linux_load_file_path e (open_name e)
                (with_event AskOpenFilename w) Hpath) as [H|[H1 H2]];
      unfold after in *.
    + left. rewrite H. now destruct w.
    + right. split; [exact H1|]. unfold read_ok in *. now destruct w.
  - left. now destruct w.
Qed.

(** Composition of the gate with what it guards. *)
Lemma guarded_open_path encs e (gate : M bool) (body : M unit) w :
  path_from_save e gate w ->
  (forall wg,
      current_file (after body wg) = current_file wg
      \/ (current_file (after body wg) = Some (open_name e)
          /\ read_ok encs e wg (open_name e))) ->
  path_from_open encs e
    (proceed <- gate ;; if proceed then body else ret tt) (after gate w) w.
Proof.
  intros Hg Hb. unfold path_from_open, path_from_save in *.
  rewrite guarded_after.
  destruct (result gate w) as [[]|]; auto.
  destruct (Hb (after gate w)) as [H|[H1 H2]]; [|now right].
  left. rewrite H. exact Hg.
Qed.

Lemma guarded_new_path e (gate : M bool) w :
  path_from_save e gate w ->
  path_from_new e (proceed <- gate ;; if proceed then new_body else ret tt) w.
Proof.
  intros Hg. unfold path_from_new, path_from_save in *.
  rewrite guarded_after.
  destruct (result gate w) as [[]|]; auto using new_body_path.
Qed.

Lemma guarded_quit_path e (gate : M bool) w :
  path_from_save e gate w ->
  path_from_save e (proceed <- gate ;; if proceed then IO.quit else ret tt) w.
Proof.
  intros Hg. unfold path_from_save in *. rewrite guarded_after.
  destruct (result gate w) as [[]|]; auto.
Qed.

(** C8. [current_file] takes the value of a path only in two ways: a
    save-as whose chooser gave that path and whose write went through, or an
    open/load of that path whose read went through.  The gate, Save, Save As
    and Exit leave the path as it was unless such a save-as happened inside
    them; Open adds the path of the open dialog when the read went through;
    New may leave the fresh document without a path.  So a dismissed dialog,
    a refused [open], a text that cannot be encoded or a file that cannot be
    read leaves the path unchanged, and no command makes up a path. *)
Theorem path_only_from_open_or_save_as (e : env) (w : world) :
  (path_from_save e (Windows.save_as_file e) w
   /\ path_from_save e (Windows.save_file e) w
   /\ path_from_save e (Windows.check_unsaved_changes e) w
   /\ path_from_save e (Windows.exit_app e) w
   /\ path_from_new e (Windows.new_file e) w
   /\ path_from_open [Codec.utf_8] e (Windows.open_file e)
        (after (Windows.check_unsaved_changes e) w) w)
  /\ (path_from_save e (MacOS.save_as_file e) w
      /\ path_from_save e (MacOS.save_file e) w
      /\ path_from_save e (MacOS.check_unsaved_changes e) w
      /\ path_from_save e (MacOS.exit_app e) w
      /\ path_from_new e (MacOS.new_file e) w
      /\ path_from_open [Codec.utf_8; Codec.latin_1] e (MacOS.open_file e)
           (after (MacOS.check_unsaved_changes e) w) w)
  /\ (path_from_save e (Linux.save_as_file e) w
      /\ path_from_save e (Linux.save_file e) w
      /\ path_from_save e (Linux.check_unsaved_changes e) w
      /\ path_from_new e (Linux.new_file e) w
      /\ path_from_open Linux.encodings e (Linux.open_file e None)
           (after (Linux.check_unsaved_changes e) w) w
      /\ (forall filepath,
            truthy filepath = true ->
            current_file (after (Linux.load_file e filepath) w) = current_file w
            \/ (current_file (after (Linux.load_file e filepath) w) = Some filepath
                /\ read_ok Linux.encodings e w filepath))).
Proof.
  pose proof (windows_gate_path e w) as Hw.
  pose proof (macos_gate_path e w) as Hm.
  pose proof (linux_gate_path e w) as Hl.
  split; [|split].
  - repeat apply conj.
    + apply windows_save_as_path.
    + apply windows_save_path.
    + exact Hw.
    + exact (guarded_quit_path e _ w Hw).
    + exact (guarded_new_path e _ w Hw).
    + apply (guarded_open_path [Codec.utf_8] e _ (windows_open_body e) w Hw).
      apply windows_open_body_path.
  - repeat apply conj.
    + apply macos_save_as_path.
    + apply macos_save_path.
    + exact Hm.
    + exact (guarded_quit_path e _ w Hm).
    + exact (guarded_new_path e _ w Hm).
    + apply (guarded_open_path [Codec.utf_8; Codec.latin_1] e _
               (macos_open_body e) w Hm).
      apply macos_open_body_path.
  - repeat apply conj.
    + apply linux_save_as_path.
    + apply linux_save_path.
    + exact Hl.
    + exact (guarded_new_path e _ w Hl).
    + apply (guarded_open_path Linux.encodings e _ (linux_open_body e) w Hl).
      apply linux_open_body_path.
    + intros filepath Hp. now apply linux_load_file_path.
Qed.

Lemma path_only_from_open_or_save_as_witness :
  path_from_save dismiss_env (Linux.save_as_file dismiss_env) typed_hello
  /\ (current_file (after (Linux.load_file legacy_env legacy_file) legacy_world)
      = current_file legacy_world
      \/ (current_file (after (Linux.load_file legacy_env legacy_file) legacy_world)
          = Some legacy_file
          /\ read_ok Linux.encodings legacy_env legacy_world legacy_file)).
Proof.
  split.
  - apply (path_only_from_open_or_save_as dismiss_env typed_hello).
  - apply (path_only_from_open_or_save_as legacy_env legacy_world).
    reflexivity.
Defined.

(** A dismissed chooser and a file that is not UTF-8 leave the path unset;
    the same file opened by macos.py sets it. *)
Example path_examples :
  current_file (after (Linux.save_as_file dismiss_env) typed_hello) = None
  /\ current_file (after (Windows.open_file legacy_env) legacy_world) = None
  /\ current_file (after (MacOS.open_file legacy_env) legacy_world)
     = Some legacy_file.
Proof. repeat split. Qed.

(** ** Save, then load *)

Ltac Zify.zify_post_hook ::= Z.to_euclidean_division_equations.

(** Decides the comparisons of a goal by linear arithmetic. *)
Ltac decide_tests :=
  repeat match goal with
         | |- context [?a <? ?b] =>
             first [ replace (a <? b) with true
                       by (symmetry; apply N.ltb_lt; lia)
                   | replace (a <? b) with false
                       by (symmetry; apply N.ltb_ge; lia) ]
         | |- context [?a <=? ?b] =>
             first [ replace (a <=? b) with true
                       by (symmetry; apply N.leb_le; lia)
                   | replace (a <=? b) with false
                       by (symmetry; apply N.leb_gt; lia) ]
         end.

Lemma utf8_decode_encode_char c a rest :
  Codec.utf8_encode_char c = Some a ->
  Codec.utf8_decode (a ++ rest) = cons c <$> Codec.utf8_decode rest.
Proof.
  unfold Codec.utf8_encode_char, Codec.is_surrogate.
  destruct (N.ltb_spec c 0x80).
  { intros [= <-]. cbn [app Codec.utf8_decode]. now decide_tests. }
  destruct (N.ltb_spec c 0x800).
  { intros [= <-]. cbn [app Codec.utf8_decode]. unfold Codec.cont.
    decide_tests. cbn [andb].
    replace ((0xC0 + c / 64 - 0xC0) * 64 + (0x80 + c mod 64 - 0x80)) with c
      by lia.
    reflexivity. }
  destruct (N.ltb_spec c 0x10000).
  { destruct (N.leb_spec 0xD800 c), (N.leb_spec c 0xDFFF); cbn [andb];
      try discriminate; try (exfalso; lia);
      intros [= <-]; cbn [app Codec.utf8_decode];
      unfold Codec.cont, Codec.is_surrogate;
      cbv zeta;
      replace ((0xE0 + c / 4096 - 0xE0) * 4096
               + (0x80 + (c / 64) mod 64 - 0x80) * 64
               + (0x80 + c mod 64 - 0x80)) with c by lia;
      decide_tests; reflexivity. }
  destruct (N.ltb_spec c 0x110000); [|discriminate].
  intros [= <-]. cbn [app Codec.utf8_decode]. unfold Codec.cont. cbv zeta.
  replace ((0xF0 + c / 262144 - 0xF0) * 262144
           + (0x80 + (c / 4096) mod 64 - 0x80) * 4096
           + (0x80 + (c / 64) mod 64 - 0x80) * 64
           + (0x80 + c mod 64 - 0x80)) with c by lia.
  decide_tests. reflexivity.
Qed.

(** What strict UTF-8 encodes, it decodes back. *)
Lemma utf8_decode_encode s :
  forall bs, Codec.utf8_encode s = Some bs -> Codec.utf8_decode bs = Some s.
Proof.
  induction s as [|c s IH]; intros bs; cbn [Codec.utf8_encode].
  - now intros [= <-].
  - destruct (Codec.utf8_encode_char c) as [a|] eqn:Ha; [|discriminate].
    destruct (Codec.utf8_encode s) as [b|]; [|discriminate].
    intros [= <-]. rewrite (utf8_decode_encode_char c a b Ha).
    now rewrite (IH b eq_refl).
Qed.

(** Text without carriage returns survives the translation of newlines on
    the way out and back, for the line separators of POSIX and Windows. *)
Lemma newlines_there_and_back linesep s :
  linesep = [LF] \/ linesep = [CR; LF] ->
  Forall (fun c => c <> CR) s ->
  Codec.universal_newlines (Codec.translate_out linesep s) = s.
Proof.
  intros Hls Hs. induction Hs as [|c s Hc _ IH]; [reflexivity|].
  unfold Codec.translate_out in *. cbn [flat_map].
  destruct (N.eqb_spec c LF) as [->|Hlf].
  - destruct Hls as [-> | ->]; cbn; now rewrite IH.
  - cbn [app Codec.universal_newlines].
    destruct (N.eqb_spec c CR); [contradiction|]. now rewrite IH.
Qed.

Lemma windows_open_body_ok e path bs text w :
  open_name e = path -> truthy path = true -> may_read e path = true ->
  files w !! path = Some bs -> Codec.utf8_decode bs = Some text ->
  chars (after (windows_open_body e) w) = Codec.universal_newlines text
  /\ current_file (after (windows_open_body e) w) = Some path.
Proof.
  intros Hname Hpath Hread Hfile Hdec. split_world w.
  unfold windows_open_body. destruct path; [discriminate|].
  run. rewrite Hname. run. rewrite Hfile, Hread. cbv [Codec.decode].
  rewrite Hdec.
  destruct buf, (Codec.universal_newlines text); run; rewrite ?app_nil_r;
    split; reflexivity.
Qed.

Lemma windows_open_file_clean e w :
  modified w = false -> Windows.open_file e w = windows_open_body e w.
Proof.
  intros Hm. unfold Windows.open_file, windows_open_body, bind at 1.
  now rewrite (windows_gate_clean e w Hm).
Qed.

(** The buffer after a save followed by a load of the same file. *)
Definition windows_round_trip (e : env) (w : world) : list N :=
  chars (after (Windows.open_file e) (after (Windows.save_file e) w)).

Definition linux_round_trip (e : env) (path : str) (w : world) : list N :=
  chars (after (Linux.load_file e path) (after (Linux.save_file e) w)).

(** C7, on the code.  A text without carriage returns that can be encoded
    and is saved to its file comes back from that file with one newline more:
    the save wrote the text from 1.0 to END, final newline of the widget
    included, and the load inserts all of it.  The round trip is therefore
    never the identity. *)
Theorem save_then_load_adds_newline
        (e : env) (w : world) (path : str) (bs : list N) :
  current_file w = Some path -> truthy path = true ->
  may_write e path = true -> may_read e path = true ->
  open_name e = path ->
  linesep e = [LF] \/ linesep e = [CR; LF] ->
  Forall (fun c => c <> CR) (chars w) ->
  written_bytes e w = Some bs ->
  windows_round_trip e w = chars w ++ [LF]
  /\ linux_round_trip e path w = chars w ++ [LF]
  /\ windows_round_trip e w <> chars w
  /\ linux_round_trip e path w <> chars w.
Proof.
  intros Hcur Hpath Hwrite Hread Hname Hls Hcr Hbytes.
  assert (Hdec : Codec.utf8_decode bs
                 = Some (Codec.translate_out (linesep e) (chars w ++ [LF])))
    by now apply utf8_decode_encode.
  assert (Hback : Codec.universal_newlines
                    (Codec.translate_out (linesep e) (chars w ++ [LF]))
                  = chars w ++ [LF]).
  { apply newlines_there_and_back; [assumption|].
    apply Forall_app. split; [assumption|]. repeat constructor. discriminate. }
  assert (Hw : windows_round_trip e w = chars w ++ [LF]).
  { unfold windows_round_trip, after.
    rewrite (windows_save_file_ok e w path bs) by assumption. cbn [snd].
    rewrite windows_open_file_clean by reflexivity.
    destruct (windows_open_body_ok e path bs
                (Codec.translate_out (linesep e) (chars w ++ [LF]))
                (saved path bs [] w) Hname Hpath Hread) as [Hc _];
      [|exact Hdec|].
    - unfold saved. cbn [files]. apply lookup_insert_eq.
    - unfold after in Hc. rewrite Hc. exact Hback. }
  assert (Hl : linux_round_trip e path w = chars w ++ [LF]).
  { unfold linux_round_trip, after.
    rewrite (linux_save_file_ok e w path bs) by assumption. cbn [snd].
    destruct (linux_load_file_first e path bs Hread (saved path bs [] w)
                Codec.utf_8
                (Codec.translate_out (linesep e) (chars w ++ [LF])))
      as ([Hc _] & _).
    - unfold saved. cbn [files]. apply lookup_insert_eq.
    - cbn [Linux.encodings first_decoding Codec.decode]. now rewrite Hdec.
    - rewrite Hc. exact Hback. }
  rewrite Hw, Hl. repeat split; intros H;
    apply (f_equal (@length N)) in H; rewrite length_app in H; cbn in H; lia.
Qed.

Lemma save_then_load_adds_newline_witness :
  windows_round_trip open_env hello_at_a = py "hello" ++ [LF]
  /\ linux_round_trip open_env tmp_a hello_at_a <> py "hello".
Proof.
  assert (Hcr : Forall (fun c => c <> CR) (chars hello_at_a))
    by (repeat constructor; discriminate).
  pose proof (save_then_load_adds_newline open_env hello_at_a tmp_a
                (hello ++ [LF]) eq_refl eq_refl eq_refl eq_refl eq_refl
                (or_introl eq_refl) Hcr eq_refl) as H.
  split; apply H.
Defined.

(** * Further properties of the three editors *)

(** ** What the gate promises its callers *)

(** The gate answered True on a clean session, or answered False and left
    the session, still dirty, as it was. *)
Definition gate_outcome (gate : M bool) (w : world) : Prop :=
  (result gate w = Return true /\ modified (after gate w) = false)
  \/ (result gate w = Return false
      /\ session (after gate w) = session w /\ modified w = true).

Lemma windows_gate_outcome e w :
  gate_outcome (Windows.check_unsaved_changes e) w.
Proof.
  unfold gate_outcome. split_world w. destruct dirty; [|left; split; reflexivity].
  run. destruct (yesnocancel e) as [[]|]; run; auto.
  destruct cur as [[|c p]|]; crunch e; auto.
Qed.

Lemma macos_gate_outcome e w :
  gate_outcome (MacOS.check_unsaved_changes e) w.
Proof.
  unfold gate_outcome. split_world w. destruct dirty; [|left; split; reflexivity].
  run. destruct (yesnocancel e) as [[]|]; run; auto.
  destruct cur as [[|c p]|]; crunch e; auto.
Qed.

Lemma linux_gate_outcome e w :
  gate_outcome (Linux.check_unsaved_changes e) w.
Proof.
  unfold gate_outcome. split_world w. destruct dirty; [|left; split; reflexivity].
  run. destruct (yesnocancel e) as [[]|]; run; auto.
  destruct cur as [[|c p]|]; crunch e; auto; recent_step e; run; auto.
Qed.

(** X1. Whatever the user and the storage answer, [check_unsaved_changes]
    never raises and has two outcomes only: True with the modified flag
    down, or False with buffer, path and flag exactly as before the call (and
    the flag was up).  A caller that sees True never holds unsaved text. *)
Theorem gate_true_only_when_clean (e : env) (w : world) :
  gate_outcome (Windows.check_unsaved_changes e) w
  /\ gate_outcome (MacOS.check_unsaved_changes e) w
  /\ gate_outcome (Linux.check_unsaved_changes e) w.
Proof.
  auto using windows_gate_outcome, macos_gate_outcome, linux_gate_outcome.
Qed.

(** Exit behind a gate: [root.quit()] on a clean session, or nothing. *)
Definition quits_only_clean (gate : M bool) (exit_app : M unit)
           (w : world) : Prop :=
  (exit_app w = (Return tt, with_event Quit (after gate w))
   /\ modified (after gate w) = false)
  \/ (exit_app w = (Return tt, after gate w)
      /\ session (after gate w) = session w /\ modified w = true).

Lemma guarded_quit (gate : M bool) (w : world) :
  gate_outcome gate w ->
  quits_only_clean gate
    (proceed <- gate ;; if proceed then IO.quit else ret tt) w.
Proof.
  unfold gate_outcome, quits_only_clean.
  intros [[Hr Hm]|[Hr Hs]]; [left|right]; (split; [|assumption]).
  - now rewrite guarded_runs.
  - now rewrite guarded_stops.
Qed.

(** X2. [exit_app] of Windows.py and macos.py reaches [root.quit()] only
    with the modified flag down; in every other case it returns without
    quitting and the session is what it was before the command. *)
Theorem exit_quits_only_clean (e : env) (w : world) :
  quits_only_clean (Windows.check_unsaved_changes e) (Windows.exit_app e) w
  /\ quits_only_clean (MacOS.check_unsaved_changes e) (MacOS.exit_app e) w.
Proof.
  split; apply guarded_quit;
    [apply windows_gate_outcome | apply macos_gate_outcome].
Qed.

(** ** Opening a file and the modified flag *)

(** Replacing the text of the widget: the flag goes up unless nothing was
    deleted and nothing was inserted. *)
Definition flag_after_replace (old new : list N) (flag : bool) : bool :=
  match old, new with
  | [], [] => flag
  | _, _ => true
  end.

Lemma windows_open_body_flag e path bs text w :
  open_name e = path -> truthy path = true -> may_read e path = true ->
  files w !! path = Some bs -> Codec.utf8_decode bs = Some text ->
  modified (after (windows_open_body e) w)
  = flag_after_replace (chars w) (Codec.universal_newlines text) (modified w).
Proof.
  intros Hname Hpath Hread Hfile Hdec. split_world w.
  unfold windows_open_body, flag_after_replace.
  destruct path; [discriminate|].
  run. rewrite Hname. run. rewrite Hfile, Hread. cbv [Codec.decode].
  rewrite Hdec.
  destruct buf, (Codec.universal_newlines text); reflexivity.
Qed.

(** X3. A clean session opens a file that is valid UTF-8 and not empty.
    Windows.py leaves the modified flag up, because [open_file] never lowers
    it after the insertion: Exit right after Open asks about unsaved changes
    and, on Cancel, does not quit.  macos.py lowers the flag: Exit right
    after Open quits without a prompt. *)
Theorem open_then_exit (e : env) (w : world) (path : str) (bs text : list N) :
  modified w = false ->
  open_name e = path -> truthy path = true -> may_read e path = true ->
  files w !! path = Some bs -> Codec.utf8_decode bs = Some text ->
  Codec.universal_newlines text <> [] ->
  let ww := after (Windows.open_file e) w in
  let wm := after (MacOS.open_file e) w in
  modified ww = true
  /\ modified wm = false
  /\ chars ww = chars wm
  /\ (forall e', cancels e' ->
        Windows.exit_app e' ww = (Return tt, with_event AskYesNoCancel ww))
  /\ (forall e', MacOS.exit_app e' wm = (Return tt, with_event Quit wm)).
Proof.
  intros Hclean Hname Hpath Hread Hfile Hdec Hne ww wm.
  assert (Hww : modified ww = true).
  { subst ww. unfold after. rewrite windows_open_file_clean by assumption.
    fold (after (windows_open_body e) w).
    rewrite (windows_open_body_flag e path bs text w) by assumption.
    unfold flag_after_replace.
    destruct (chars w), (Codec.universal_newlines text); congruence. }
  assert (Hfirst : first_decoding [Codec.utf_8; Codec.latin_1] bs
                   = Some (Codec.utf_8, text)).
  { cbn [first_decoding Codec.decode]. now rewrite Hdec. }
  assert (Hgate : result (MacOS.check_unsaved_changes e) w = Return true).
  { unfold result. now rewrite macos_gate_clean. }
  assert (Hwg : after (MacOS.check_unsaved_changes e) w = w).
  { unfold after. now rewrite macos_gate_clean. }
  assert (Hm : MacOS.open_file e w
               = (Return tt,
                  shown path text [OpenRead path; AskOpenFilename] w)).
  { rewrite (macos_open_file_body e w Hgate), Hwg.
    exact (macos_open_body_first e path bs Hname Hpath w Codec.utf_8 text
             Hread Hfile Hfirst). }
  assert (Hwm : modified wm = false).
  { subst wm. unfold after. now rewrite Hm. }
  repeat split; try assumption.
  - subst ww wm. unfold after at 2. rewrite Hm. cbn [snd shown chars].
    unfold after. rewrite windows_open_file_clean by assumption.
    now destruct (windows_open_body_ok e path bs text w
                    Hname Hpath Hread Hfile Hdec) as [Hc _].
  - intros e' Hc. unfold Windows.exit_app, bind.
    now rewrite (windows_gate_cancel e' ww Hww Hc).
  - intros e'. unfold MacOS.exit_app, bind.
    now rewrite (macos_gate_clean e' wm Hwm).
Qed.

Definition note_file : str := py "/tmp/note.txt".
Definition note_world : world :=
  World [] false None [] {[ note_file := hello ]} [].
Definition note_env : env :=
  Env None [] note_file (fun _ => true) (fun _ => true) [LF] [] (Some 10%Z)
      Codec.utf8_encode_char Codec.utf8_decode.

Lemma open_then_exit_witness :
  modified (after (Windows.open_file note_env) note_world) = true
  /\ modified (after (MacOS.open_file note_env) note_world) = false.
Proof.
  assert (Hne : Codec.universal_newlines hello <> []) by discriminate.
  pose proof (open_then_exit note_env note_world note_file hello hello
                eq_refl eq_refl eq_refl eq_refl eq_refl eq_refl Hne) as H.
  split; apply H.
Defined.

(** ** New *)

Lemma new_body_result w :
  new_body w
  = (Return tt,
     World [] (flag_after_replace (chars w) [] (modified w)) None
           (recent_files w) (files w) (trace w)).
Proof. split_world w. unfold new_body. destruct buf; reflexivity. Qed.

(** The world after New when the gate let it through. *)
Definition fresh_document (wg : world) : world :=
  World [] (flag_after_replace (chars wg) [] (modified wg)) None
        (recent_files wg) (files wg) (trace wg).

Lemma guarded_new (gate : M bool) (w : world) :
  result gate w = Return true ->
  (proceed <- gate ;; if proceed then new_body else ret tt) w
  = (Return tt, fresh_document (after gate w)).
Proof. intros H. rewrite guarded_runs by assumption. apply new_body_result. Qed.

(** X4. When the gate lets New through, the buffer is empty and there is no
    current file; storage, recent files and trace are as the gate left them.
    The deletion raises the modified flag again whenever the buffer held
    text, so the empty document that New leaves is flagged as modified. *)
Theorem new_file_leaves_fresh_document (e : env) (w : world) :
  (result (Windows.check_unsaved_changes e) w = Return true ->
   Windows.new_file e w
   = (Return tt, fresh_document (after (Windows.check_unsaved_changes e) w)))
  /\ (result (MacOS.check_unsaved_changes e) w = Return true ->
      MacOS.new_file e w
      = (Return tt, fresh_document (after (MacOS.check_unsaved_changes e) w)))
  /\ (result (Linux.check_unsaved_changes e) w = Return true ->
      Linux.new_file e w
      = (Return tt, fresh_document (after (Linux.check_unsaved_changes e) w)))
  /\ (forall wg, chars wg <> [] -> modified (fresh_document wg) = true)
  /\ (forall wg, chars (fresh_document wg) = []
                 /\ current_file (fresh_document wg) = None).
Proof.
  repeat split; try (intros H; now apply guarded_new).
  intros wg Hne. unfold fresh_document, flag_after_replace. cbn.
  now destruct (chars wg).
Qed.

Lemma new_file_leaves_fresh_document_witness :
  Windows.new_file open_env hello_at_a
  = (Return tt,
     fresh_document (after (Windows.check_unsaved_changes open_env) hello_at_a))
  /\ modified (after (Windows.new_file open_env) hello_at_a) = true.
Proof.
  pose proof (new_file_leaves_fresh_document open_env hello_at_a)
    as (H & _ & _ & Hm & _).
  split; [now apply H|].
  unfold after. rewrite (H eq_refl). cbn [snd]. now apply Hm.
Defined.

(** ** A save that cannot encode the text *)

(** The world after [open] truncated the file and [file.write] refused the
    text: the error box, an empty file, and the session as it was. *)
Definition truncated (path : str) (asked : list event) (w : world) : world :=
  World (chars w) (modified w) (current_file w) (recent_files w)
        (<[path := []]> (files w))
        (ShowError :: OpenWrite path :: asked ++ trace w).

Section SaveUnencodable.

Variables (e : env) (w : world) (path : str).
Hypothesis Hopen : may_write e path = true.
Hypothesis Hpath : truthy path = true.
Hypothesis Hbytes : written_bytes e w = None.

Lemma windows_save_file_unencodable :
  current_file w = Some path ->
  Windows.save_file e w = (Return tt, truncated path [] w).
Proof using All.
  intros Hcur. unfold written_bytes, truncated in *. split_world w. subst cur.
  destruct path; [discriminate|].
  run. rewrite Hopen. run. rewrite Hbytes. reflexivity.
Qed.

Lemma macos_save_file_unencodable :
  current_file w = Some path ->
  MacOS.save_file e w = (Return tt, truncated path [] w).
Proof using All.
  intros Hcur. unfold written_bytes, truncated in *. split_world w. subst cur.
  destruct path; [discriminate|].
  run. rewrite Hopen. run. rewrite Hbytes. reflexivity.
Qed.

Lemma linux_save_file_unencodable :
  current_file w = Some path ->
  Linux.save_file e w = (Return tt, truncated path [] w).
Proof using All.
  intros Hcur. unfold written_bytes, truncated in *. split_world w. subst cur.
  destruct path; [discriminate|].
  run. rewrite Hopen. run. rewrite Hbytes. reflexivity.
Qed.

Lemma windows_save_as_file_unencodable :
  save_name e = path ->
  Windows.save_as_file e w = (Return tt, truncated path [AskSaveAsFilename] w).
Proof using All.
  intros Hname. unfold written_bytes, truncated in *. split_world w.
  destruct path; [discriminate|].
  run. rewrite Hname. run. rewrite Hopen. run. rewrite Hbytes. reflexivity.
Qed.

Lemma macos_save_as_file_unencodable :
  save_name e = path ->
  MacOS.save_as_file e w = (Return tt, truncated path [AskSaveAsFilename] w).
Proof using All.
  intros Hname. unfold written_bytes, truncated in *. split_world w.
  destruct path; [discriminate|].
  run. rewrite Hname. run. rewrite Hopen. run. rewrite Hbytes. reflexivity.
Qed.

Lemma linux_save_as_file_unencodable :
  save_name e = path ->
  Linux.save_as_file e w = (Return tt, truncated path [AskSaveAsFilename] w).
Proof using All.
  intros Hname. unfold written_bytes, truncated in *. split_world w.
  destruct path; [discriminate|].
  run. rewrite Hname. run. rewrite Hopen. run. rewrite Hbytes. reflexivity.
Qed.

End SaveUnencodable.

(** X5. The editors write in place: [open(path, 'w')] empties the file
    before [file.write] encodes the text.  When the text cannot be encoded
    as UTF-8 (a lone surrogate), Save and Save As show the error box and keep
    buffer, path and modified flag, but the file that was there is now
    empty: its former content is lost. *)
Theorem failed_encoding_empties_file (e : env) (w : world) (path : str) :
  may_write e path = true -> truthy path = true ->
  written_bytes e w = None ->
  (current_file w = Some path ->
   Windows.save_file e w = (Return tt, truncated path [] w)
   /\ MacOS.save_file e w = (Return tt, truncated path [] w)
   /\ Linux.save_file e w = (Return tt, truncated path [] w))
  /\ (save_name e = path ->
      Windows.save_as_file e w
      = (Return tt, truncated path [AskSaveAsFilename] w)
      /\ MacOS.save_as_file e w
         = (Return tt, truncated path [AskSaveAsFilename] w)
      /\ Linux.save_as_file e w
         = (Return tt, truncated path [AskSaveAsFilename] w))
  /\ (forall asked,
        session (truncated path asked w) = session w
        /\ files (truncated path asked w) !! path = Some []).
Proof.
  intros Hopen Hpath Hbytes. split; [|split].
  - intros Hcur.
    auto using windows_save_file_unencodable, macos_save_file_unencodable,
      linux_save_file_unencodable.
  - intros Hname.
    auto using windows_save_as_file_unencodable,
      macos_save_as_file_unencodable, linux_save_as_file_unencodable.
  - intros asked. split; [reflexivity|].
    unfold truncated. cbn [files]. apply lookup_insert_eq.
Qed.

(** A buffer that holds a lone surrogate, over a file that has content. *)
Definition surrogate_world : world :=
  World [0xD800] true (Some tmp_a) [] {[ tmp_a := hello ]} [].

Lemma failed_encoding_empties_file_witness :
  files surrogate_world !! tmp_a = Some hello
  /\ files (after (Windows.save_file open_env) surrogate_world) !! tmp_a
     = Some []
  /\ session (after (Windows.save_file open_env) surrogate_world)
     = session surrogate_world.
Proof.
  pose proof (failed_encoding_empties_file open_env surrogate_world tmp_a
                eq_refl eq_refl eq_refl) as (Hs & _ & Ht).
  destruct (Hs eq_refl) as (Hw & _).
  unfold after. rewrite Hw. cbn [snd].
  split; [reflexivity|]. split; apply (Ht []).
Defined.

(** ** Save As, then Save *)

(** X6. After a Save As that went through, Save goes to the chosen path
    without a dialog and writes the same bytes again; in linux.py this holds
    whatever became of the recent-files bookkeeping in between. *)
Theorem save_as_then_save (e : env) (w : world) (path : str) (bs : list N) :
  save_name e = path -> truthy path = true ->
  may_write e path = true -> written_bytes e w = Some bs ->
  let ww := after (Windows.save_as_file e) w in
  let wm := after (MacOS.save_as_file e) w in
  let wl := after (Linux.save_as_file e) w in
  Windows.save_file e ww = (Return tt, saved path bs [] ww)
  /\ MacOS.save_file e wm = (Return tt, saved path bs [] wm)
  /\ Linux.save_file e wl = (Return tt, saved path bs [] wl).
Proof.
  intros Hname Hpath Hopen Hbytes ww wm wl.
  split; [|split].
  - subst ww. unfold after.
    rewrite (windows_save_as_file_ok e w path bs) by assumption.
    now apply windows_save_file_ok.
  - subst wm. unfold after.
    rewrite (macos_save_as_file_ok e w path bs) by assumption.
    now apply macos_save_file_ok.
  - assert (Hs : session wl = (chars w, Some path, false)).
    { subst wl. unfold after.
      rewrite (linux_save_as_file_ok e w path bs) by assumption.
      unfold catch.
      match goal with |- context [Linux.add_to_recent_files e path ?W] =>
        pose proof (add_to_recent_files_session e path W) as Hs;
        destruct (Linux.add_to_recent_files e path W) as [[[]|x] w']
      end; cbn [snd] in *.
      - exact Hs.
      - destruct w'. exact Hs. }
    unfold session in Hs. injection Hs as Hc Hp Hm.
    apply linux_save_file_ok; try assumption.
    unfold written_bytes in *. now rewrite Hc.
Qed.

Lemma save_as_then_save_witness :
  Linux.save_file open_env (after (Linux.save_as_file open_env) typed_hello)
  = (Return tt,
     saved tmp_a (hello ++ [LF]) []
       (after (Linux.save_as_file open_env) typed_hello)).
Proof.
  apply (save_as_then_save open_env typed_hello tmp_a (hello ++ [LF]));
    reflexivity.
Defined.

(** ** No exception leaves a file command *)

















Definition broken_config_env : env :=
  Env None [] [] (fun _ => true) (fun _ => true) [LF] [] None
      Codec.utf8_encode_char Codec.utf8_decode.


(** ** The list of recent files *)

(** What [add_to_recent_files] does to the list before the limit applies:
    the path goes to the front, its former first occurrence goes away. *)
Definition recent_front (filepath : str) (l : list (list N)) : list (list N) :=
  filepath :: (if bool_decide (filepath ∈ l) then Linux.remove filepath l else l).

Lemma write_lines_recent e path l w :
  recent_files (snd (Linux.write_lines e path l w)) = recent_files w.
Proof.
  revert w. induction l as [|f r IH]; intros w; [reflexivity|].
  cbn [Linux.write_lines]. unfold bind at 1. unfold IO.file_write_default.
  destruct (Codec.charwise_encode _ _); [|reflexivity].
  cbv [bind modify emit]. rewrite IH. now destruct w.
Qed.

(** The list after the call, whether the call raised or not. *)
Lemma add_to_recent_files_list e filepath w :
  recent_files (snd (Linux.add_to_recent_files e filepath w))
  = match max_files e with
    | Some n => Linux.slice_to n (recent_front filepath (recent_files w))
    | None => recent_front filepath (recent_files w)
    end.
Proof.
  split_world w. unfold Linux.add_to_recent_files, recent_front.
  cbv [bind modify get ret raise IO.open_w emit with_recent_files with_files
       with_event].
  cbn [chars modified current_file recent_files files trace].
  destruct (max_files e) as [n|];
    destruct (bool_decide (filepath ∈ recent)); try reflexivity;
    cbn [chars modified current_file recent_files files trace];
    (destruct (may_write e (recent_files_file e)); [|reflexivity]);
    now rewrite write_lines_recent.
Qed.

Lemma remove_subseteq x (l : list (list N)) : Linux.remove x l ⊆ l.
Proof.
  induction l as [|y l IH]; cbn [Linux.remove]; [done|].
  destruct (decide (x = y)); intros z Hz.
  - now apply list_elem_of_further.
  - apply elem_of_cons in Hz as [->|Hz];
      [apply list_elem_of_here|apply list_elem_of_further, IH, Hz].
Qed.

Lemma remove_NoDup x (l : list (list N)) :
  NoDup l -> NoDup (Linux.remove x l) /\ x ∉ Linux.remove x l.
Proof.
  induction 1 as [|y l Hy Hl IH]; cbn [Linux.remove].
  - split; [constructor|apply not_elem_of_nil].
  - destruct (decide (x = y)) as [->|Hne]; [now split|].
    destruct IH as [IH1 IH2]. split.
    + constructor; [|assumption].
      intros Hin. apply Hy. now apply (remove_subseteq x l).
    + intros Hin. apply elem_of_cons in Hin as [Hin|Hin]; contradiction.
Qed.

Lemma recent_front_NoDup filepath (l : list (list N)) :
  NoDup l -> NoDup (recent_front filepath l).
Proof.
  intros Hl. unfold recent_front. case_bool_decide as Hin.
  - destruct (remove_NoDup filepath l Hl). now constructor.
  - now constructor.
Qed.

Lemma slice_to_sublist {A} n (l : list A) : Linux.slice_to n l `sublist_of` l.
Proof. unfold Linux.slice_to. destruct (n <? 0)%Z; apply sublist_take. Qed.

(** X8. [add_to_recent_files] keeps the list of recent files free of
    duplicates: if no path occurs twice before the call, none does after it,
    whether the call ends normally or raises.  It invents nothing: every
    entry after the call is the new path or was in the list before. *)
Theorem recent_files_stay_distinct (e : env) (filepath : str) (w : world) :
  NoDup (recent_files w) ->
  let l' := recent_files (after (Linux.add_to_recent_files e filepath) w) in
  NoDup l' /\ (forall p, p ∈ l' -> p = filepath \/ p ∈ recent_files w).
Proof.
  intros Hl l'. subst l'. unfold after. rewrite add_to_recent_files_list.
  assert (Hsub : forall p, p ∈ recent_front filepath (recent_files w) ->
                           p = filepath \/ p ∈ recent_files w).
  { intros p. unfold recent_front. intros Hp.
    apply elem_of_cons in Hp as [Hp|Hp]; [now left|right].
    case_bool_decide; [|assumption].
    now apply (remove_subseteq filepath (recent_files w)). }
  pose proof (recent_front_NoDup filepath _ Hl) as Hnd.
  destruct (max_files e) as [n|]; [|now split].
  pose proof (slice_to_sublist n (recent_front filepath (recent_files w))) as Hs.
  split.
  - eapply sublist_NoDup; eassumption.
  - intros p Hp. apply Hsub. eapply sublist_subseteq; eassumption.
Qed.

Definition two_recent : world :=
  World [] false None [tmp_a; legacy_file] ∅ [].

Lemma recent_files_stay_distinct_witness :
  NoDup (recent_files
           (after (Linux.add_to_recent_files open_env legacy_file) two_recent)).
Proof.
  apply (recent_files_stay_distinct open_env legacy_file two_recent).
  cbn. apply NoDup_cons. split; [|apply NoDup_singleton].
  intros H. apply list_elem_of_singleton in H. discriminate H.
Defined.

Example recent_files_moves_to_front :
  recent_files
    (after (Linux.add_to_recent_files open_env legacy_file) two_recent)
  = [legacy_file; tmp_a].
Proof. vm_compute. reflexivity. Qed.

(** X9. With a limit [max_files = n] that is at least 1, the path just
    loaded or saved is the first entry after [add_to_recent_files] and the
    list has at most [n] entries; with the limit 0 the list is emptied. *)
Theorem recent_files_newest_first (e : env) (filepath : str) (w : world)
        (n : Z) :
  max_files e = Some n -> (0 <= n)%Z ->
  let l' := recent_files (after (Linux.add_to_recent_files e filepath) w) in
  (length l' <= Z.to_nat n)%nat
  /\ ((1 <= n)%Z -> head l' = Some filepath)
  /\ (n = 0%Z -> l' = []).
Proof.
  intros Hmax Hn l'. subst l'. unfold after.
  rewrite add_to_recent_files_list, Hmax. unfold Linux.slice_to.
  destruct (Z.ltb_spec n 0); [lia|].
  split; [|split].
  - rewrite length_take. lia.
  - intros H1. unfold recent_front.
    destruct (Z.to_nat n) as [|k] eqn:Hk; [lia|]. reflexivity.
  - intros ->. reflexivity.
Qed.

Lemma recent_files_newest_first_witness :
  head (recent_files
          (after (Linux.add_to_recent_files open_env legacy_file) two_recent))
  = Some legacy_file.
Proof.
  apply (recent_files_newest_first open_env legacy_file two_recent 10);
    [reflexivity|lia|lia].
Defined.

(** ** Loading when the bookkeeping fails *)

(** The world in which [load_file] calls [add_to_recent_files]: the text is
    shown and the path is set, the flag is whatever the replacement of the
    text made it. *)
Definition text_shown (filepath text : list N) (reads : list event)
           (w : world) : world :=
  World (Codec.universal_newlines text)
        (flag_after_replace (chars w) (Codec.universal_newlines text)
                            (modified w))
        (Some filepath) (recent_files w) (files w) (reads ++ trace w).

(** The end of one pass of the loop: the flag goes down only when the
    bookkeeping returned. *)
Definition finish_load (r : outcome unit * world) : outcome unit * world :=
  match r with
  | (Return _, w') => (Return tt, with_modified false w')
  | (Raise x, w') => (Raise x, w')
  end.

Lemma linux_load_file_for_shape e filepath bs encs :
  may_read e filepath = true ->
  forall w enc text,
    files w !! filepath = Some bs ->
    first_decoding encs bs = Some (enc, text) ->
    exists reads,
      Forall (fun ev => ev = OpenRead filepath) reads
      /\ Linux.load_file_for e filepath encs w
         = finish_load (Linux.add_to_recent_files e filepath
                          (text_shown filepath text reads w)).
Proof.
  intros Hread.
  induction encs as [|enc0 rest IH]; intros w enc text Hfile Hfirst;
    [discriminate|].
  cbn [first_decoding] in Hfirst. cbn [Linux.load_file_for].
  destruct (Codec.decode enc0 bs) as [s|] eqn:Hdec.
  - injection Hfirst as <- <-. exists [OpenRead filepath].
    split; [repeat constructor|].
    split_world w. unfold text_shown, finish_load, flag_after_replace.
    run. rewrite Hfile, Hread, Hdec.
    destruct buf, (Codec.universal_newlines s); run; rewrite ?app_nil_r;
      cbn [app];
      recent_cases e Hne Hok; try congruence; reflexivity.
  - destruct (IH (with_event (OpenRead filepath) w) enc text) as (reads & Hr & Heq);
      [now destruct w|assumption|].
    exists (reads ++ [OpenRead filepath]). split.
    + apply Forall_app. split; [assumption|repeat constructor].
    + split_world w. run. rewrite Hfile, Hread, Hdec. run.
      unfold with_event in Heq. cbn [chars modified current_file recent_files
        files trace] in Heq. rewrite Heq.
      unfold text_shown. cbn [chars modified current_file recent_files files
        trace]. now rewrite <- app_assoc.
Qed.

(** [add_to_recent_files] raises when the configured limit is not an
    integer ([ValueError] from [getint]) and when the list file cannot be
    opened for writing ([OSError] from [open]). *)
Lemma add_to_recent_files_raises e filepath w :
  max_files e = None \/ may_write e (recent_files_file e) = false ->
  exists x, fst (Linux.add_to_recent_files e filepath w) = Raise x.
Proof.
  intros H. split_world w. unfold Linux.add_to_recent_files.
  cbv [bind modify get ret raise IO.open_w emit with_recent_files with_files
       with_event].
  cbn [chars modified current_file recent_files files trace].
  destruct (max_files e) as [n|].
  - destruct H as [H|H]; [discriminate|]. rewrite H.
    destruct (bool_decide (filepath ∈ recent)); now exists OSError.
  - destruct (bool_decide (filepath ∈ recent)); now exists ValueError.
Qed.

Lemma flag_after_replace_text old new flag :
  new <> [] -> flag_after_replace old new flag = true.
Proof. intros H. destruct old, new; [contradiction|reflexivity..]. Qed.

(** C5. Loading follows the ordered list of encodings: the first candidate
    that decodes the bytes supplies the text, so an encoding wins as soon as
    all those listed before it fail and a later one never replaces it.
    [load_file] of linux.py uses utf-8, cp1251, iso-8859-1 and [open_file] of
    macos.py uses utf-8, latin-1.  On a file that can be read the buffer
    becomes the decoded text and the path becomes the file's path in both
    editors.  macos.py then lowers the modified flag, always.  linux.py
    calls [add_to_recent_files] between the insertion and
    [edit_modified(False)]: the flag goes down only if that call returns.
    When it raises (the limit [max_files] is not an integer, or the list
    file cannot be opened) the file is loaded all the same, an error box is
    shown, and the flag stays as the replacement of the text set it: raised,
    for every file that is not empty. *)
Theorem load_reads_with_first_decoding :
  (forall encs pre enc post bs text,
      encs = pre ++ enc :: post ->
      Forall (fun x => Codec.decode x bs = None) pre ->
      Codec.decode enc bs = Some text ->
      first_decoding encs bs = Some (enc, text))
  /\ (forall e w filepath bs enc text,
      may_read e filepath = true ->
      files w !! filepath = Some bs ->
      first_decoding Linux.encodings bs = Some (enc, text) ->
      let w' := after (Linux.load_file e filepath) w in
      let raised :=
        flag_after_replace (chars w) (Codec.universal_newlines text)
                           (modified w) in
      chars w' = Codec.universal_newlines text
      /\ current_file w' = Some filepath
      /\ (modified w' = false
          \/ modified w' = raised /\ head (trace w') = Some ShowError)
      /\ (recent_ok e filepath w -> modified w' = false)
      /\ (max_files e = None \/ may_write e (recent_files_file e) = false ->
          modified w' = raised
          /\ head (trace w') = Some ShowError
          /\ (Codec.universal_newlines text <> [] -> modified w' = true)))
  /\ (forall e w path bs enc text,
      result (MacOS.check_unsaved_changes e) w = Return true ->
      open_name e = path -> truthy path = true ->
      may_read e path = true ->
      files (after (MacOS.check_unsaved_changes e) w) !! path = Some bs ->
      first_decoding [Codec.utf_8; Codec.latin_1] bs = Some (enc, text) ->
      let w' := after (MacOS.open_file e) w in
      chars w' = Codec.universal_newlines text
      /\ current_file w' = Some path
      /\ modified w' = false).
Proof.
  split; [exact first_decoding_earliest|]. split.
  - intros e w filepath bs enc text Hread Hfile Hfirst. cbv zeta.
    destruct (linux_load_file_for_shape e filepath bs Linux.encodings Hread
                w enc text Hfile Hfirst) as (reads & _ & Heq).
    unfold after, Linux.load_file, catch. rewrite Heq. clear Heq.
    pose proof (add_to_recent_files_session e filepath
                  (text_shown filepath text reads w)) as Hses.
    pose proof (add_to_recent_files_outcome e filepath
                  (text_shown filepath text reads w)) as [_ Hok].
    pose proof (add_to_recent_files_raises e filepath
                  (text_shown filepath text reads w)) as Hraise.
    assert (Hrec : recent_ok e filepath w ->
                   recent_ok e filepath (text_shown filepath text reads w))
      by (intros H; exact H).
    destruct (Linux.add_to_recent_files e filepath
                (text_shown filepath text reads w)) as [[[]|x] w1];
      cbn [finish_load fst snd] in *;
      destruct w1 as [c1 m1 cf1 rf1 fs1 tr1];
      unfold text_shown, session, IO.showerror, emit, modify, with_modified,
        with_event in *;
      cbn [chars modified current_file recent_files files trace fst snd] in *;
      injection Hses as -> -> ->.
    + split; [reflexivity|]. split; [reflexivity|]. split; [now left|].
      split; [reflexivity|].
      intros Hx. destruct (Hraise Hx) as [x [=]].
    + split; [reflexivity|]. split; [reflexivity|].
      split; [right; split; reflexivity|]. split.
      * intros Hx. specialize (Hok (Hrec Hx)). discriminate.
      * intros _. split; [reflexivity|]. split; [reflexivity|].
        apply flag_after_replace_text.
  - intros e w path bs enc text Hgate Hname Hpath Hread Hfile Hfirst.
    cbv zeta. unfold after at 1 2 3.
    rewrite (macos_open_file_body e w Hgate).
    rewrite (macos_open_body_first e path bs Hname Hpath _ enc text
               Hread Hfile Hfirst).
    repeat split.
Qed.

(** The configuration directory is read-only: nothing can be opened for
    writing. *)
Definition locked_config_env : env :=
  Env None [] note_file (fun _ => true) (fun _ => false) [LF]
      (py "/home/u/.config/linux-notepad/recent_files.txt") (Some 10%Z)
      Codec.utf8_encode_char Codec.utf8_decode.

Lemma load_reads_with_first_decoding_witness :
  session (after (Linux.load_file locked_config_env note_file) note_world)
  = (hello, Some note_file, true)
  /\ session (after (MacOS.open_file legacy_env) legacy_world)
     = ([0xE9], Some legacy_file, false).
Proof.
  destruct load_reads_with_first_decoding as (_ & HL & HM).
  split.
  - destruct (HL locked_config_env note_world note_file hello Codec.utf_8 hello
                eq_refl eq_refl eq_refl) as (Hc & Hp & _ & _ & Hfail).
    destruct (Hfail (or_intror eq_refl)) as (_ & _ & Hm).
    unfold session. rewrite Hc, Hp, Hm; [reflexivity|discriminate].
  - destruct (HM legacy_env legacy_world legacy_file [0xE9] Codec.latin_1 [0xE9]
                eq_refl eq_refl eq_refl eq_refl eq_refl eq_refl)
      as (Hc & Hp & Hm).
    unfold session. rewrite Hc, Hp, Hm. reflexivity.
Defined.

(** X10. A [max_files] setting that is not an integer makes
    [add_to_recent_files] raise [ValueError] after the text is in the widget
    and before [edit_modified(False)].  [load_file] then ends with its error
    box although the file was loaded: the text is shown, the path is current
    and heads the recent list, nothing was written to storage, and the
    modified flag is left as the replacement of the text set it. *)
Theorem load_with_broken_limit (e : env) (w : world) (filepath : str)
        (bs : list N) (enc : Codec.encoding) (text : list N) :
  max_files e = None ->
  may_read e filepath = true -> files w !! filepath = Some bs ->
  first_decoding Linux.encodings bs = Some (enc, text) ->
  let w' := after (Linux.load_file e filepath) w in
  result (Linux.load_file e filepath) w = Return tt
  /\ chars w' = Codec.universal_newlines text
  /\ current_file w' = Some filepath
  /\ modified w'
     = flag_after_replace (chars w) (Codec.universal_newlines text) (modified w)
  /\ recent_files w' = recent_front filepath (recent_files w)
  /\ files w' = files w
  /\ head (trace w') = Some ShowError.
Proof.
  intros Hmax Hread Hfile Hfirst w'. subst w'.
  destruct (linux_load_file_for_shape e filepath bs Linux.encodings Hread
              w enc text Hfile Hfirst) as (reads & _ & Heq).
  unfold result, after, Linux.load_file, catch. rewrite Heq.
  unfold text_shown, finish_load, Linux.add_to_recent_files, recent_front.
  split_world w. cbv [bind modify get ret raise]. rewrite Hmax.
  cbn [recent_files with_recent_files].
  destruct (bool_decide (filepath ∈ recent)); repeat split.
Qed.

Lemma load_with_broken_limit_witness :
  let w' := after (Linux.load_file broken_config_env note_file) note_world in
  chars w' = hello /\ modified w' = true /\ head (trace w') = Some ShowError.
Proof.
  pose proof (load_with_broken_limit broken_config_env note_world note_file
                hello Codec.utf_8 hello eq_refl eq_refl eq_refl eq_refl) as H.
  cbv zeta in *. repeat split; apply H.
Defined.

(** ** The recent-files list on disk *)

(** The text of the list file: every path followed by a newline. *)
Definition join_lines (l : list (list N)) : list N :=
  flat_map (fun f => f ++ [LF]) l.

Lemma charwise_encode_app f (a b : list N) :
  Codec.charwise_encode f (a ++ b)
  = match Codec.charwise_encode f a, Codec.charwise_encode f b with
    | Some x, Some y => Some (x ++ y)
    | _, _ => None
    end.
Proof.
  induction a as [|c a IH]; cbn [app Codec.charwise_encode].
  - destruct (Codec.charwise_encode f b); reflexivity.
  - rewrite IH.
    destruct (f c), (Codec.charwise_encode f a), (Codec.charwise_encode f b);
      try reflexivity.
    now rewrite app_assoc.
Qed.

(** UTF-8 is such an encoder. *)
Lemma charwise_utf8 s :
  Codec.charwise_encode Codec.utf8_encode_char s = Codec.utf8_encode s.
Proof.
  induction s as [|c s IH]; [reflexivity|].
  cbn [Codec.charwise_encode Codec.utf8_encode]. now rewrite IH.
Qed.

Lemma write_lines_content e path l :
  Forall (line_encodable e) l ->
  forall w before,
    files w !! path = Some before ->
    exists bs,
      Codec.charwise_encode (locale_encode e)
        (Codec.translate_out (linesep e) (join_lines l))
      = Some bs
      /\ files (snd (Linux.write_lines e path l w)) !! path
         = Some (before ++ bs).
Proof.
  induction 1 as [|f r Hf _ IH]; intros w before Hfile.
  - exists []. split; [reflexivity|]. now rewrite app_nil_r.
  - cbn [Linux.write_lines join_lines flat_map]. unfold bind at 1.
    unfold IO.file_write_default. destruct Hf as [b1 Hb1]. rewrite Hb1.
    cbv [bind modify emit].
    match goal with |- context [Linux.write_lines e path r ?W] =>
      destruct (IH W (before ++ b1)) as (bs & Hbs & Hcontent) end.
    { split_world w. unfold with_files, with_event.
      cbn [chars modified current_file recent_files files trace].
      rewrite lookup_insert_eq, Hfile. reflexivity. }
    exists (b1 ++ bs). split.
    + fold (join_lines r). rewrite translate_out_app, charwise_encode_app.
      now rewrite Hb1, Hbs.
    + rewrite Hcontent. now rewrite app_assoc.
Qed.

Lemma recent_front_Forall (P : list N -> Prop) filepath l :
  Forall P (filepath :: l) -> Forall P (recent_front filepath l).
Proof.
  intros H. inversion H; subst. unfold recent_front.
  constructor; [assumption|]. case_bool_decide; auto using remove_Forall.
Qed.

Lemma add_to_recent_files_written (e : env) (filepath : str) (w : world)
      (n : Z) :
  max_files e = Some n -> recent_ok e filepath w ->
  exists bs,
    Codec.charwise_encode (locale_encode e)
      (Codec.translate_out (linesep e)
         (join_lines
            (Linux.slice_to n (recent_front filepath (recent_files w)))))
    = Some bs
    /\ files (snd (Linux.add_to_recent_files e filepath w))
         !! recent_files_file e = Some bs.
Proof.
  intros Hmax Hok.
  destruct Hok as (_ & Hopen & Henc).
  assert (HF : Forall (line_encodable e)
                 (Linux.slice_to n (recent_front filepath (recent_files w)))).
  { now apply slice_to_Forall, recent_front_Forall. }
  split_world w. unfold Linux.add_to_recent_files, recent_front in *.
  cbv [bind modify get ret raise IO.open_w emit with_recent_files with_files
       with_event].
  cbn [chars modified current_file recent_files files trace].
  rewrite Hmax, Hopen.
  destruct (bool_decide (filepath ∈ recent));
    cbn [chars modified current_file recent_files files trace];
    match goal with |- context [Linux.write_lines e ?p ?l ?W] =>
      destruct (write_lines_content e p l HF W []) as (bs & Hbs & Hc);
        [apply lookup_insert_eq|]
    end; exists bs; (split; [exact Hbs|exact Hc]).
Qed.

(** X11. When [add_to_recent_files] ends normally the list file agrees
    with the list in memory: it holds the entries in their order, one per
    line, in the default encoding of the locale (the file is opened without
    [encoding=]), and nothing else. *)
Theorem recent_file_mirrors_list (e : env) (filepath : str) (w : world)
        (n : Z) :
  max_files e = Some n -> recent_ok e filepath w ->
  let w' := after (Linux.add_to_recent_files e filepath) w in
  result (Linux.add_to_recent_files e filepath) w = Return tt
  /\ recent_files w' = Linux.slice_to n (recent_front filepath (recent_files w))
  /\ exists bs,
       Codec.charwise_encode (locale_encode e)
         (Codec.translate_out (linesep e) (join_lines (recent_files w')))
       = Some bs
       /\ files w' !! recent_files_file e = Some bs.
Proof.
  intros Hmax Hok w'. subst w'.
  split; [now apply add_to_recent_files_outcome|].
  unfold after. split; [now rewrite add_to_recent_files_list, Hmax|].
  rewrite add_to_recent_files_list, Hmax.
  now apply add_to_recent_files_written.
Qed.

Lemma recent_file_mirrors_list_witness :
  files (after (Linux.add_to_recent_files open_env legacy_file) two_recent)
    !! recent_files_file open_env
  = Some (legacy_file ++ [LF] ++ tmp_a ++ [LF]).
Proof.
  assert (Hok : recent_ok open_env legacy_file two_recent).
  { unfold recent_ok, line_encodable. cbn. repeat split; eauto. }
  destruct (recent_file_mirrors_list open_env legacy_file two_recent 10
              eq_refl Hok) as (_ & _ & bs & Hbs & Hfile).
  rewrite Hfile. f_equal. vm_compute in Hbs. now injection Hbs as <-.
Defined.

(** ** Python string methods used by linux.py and macos.py *)

Module Str.

(** [str.isspace] on one character: the Unicode white space of CPython. *)
Definition isspace (c : N) : bool :=
  ((0x09 <=? c) && (c <=? 0x0D)) || ((0x1C <=? c) && (c <=? 0x20))
  || (c =? 0x85) || (c =? 0xA0) || (c =? 0x1680)
  || ((0x2000 <=? c) && (c <=? 0x200A))
  || (c =? 0x2028) || (c =? 0x2029) || (c =? 0x202F) || (c =? 0x205F)
  || (c =? 0x3000).

Fixpoint lstrip (s : str) : str :=
  match s with
  | [] => []
  | c :: r => if isspace c then lstrip r else s
  end.

Definition rstrip (s : str) : str := rev (lstrip (rev s)).

(** [s.strip()] *)
Definition strip (s : str) : str := lstrip (rstrip s).

(** The lines a text file yields when iterated: each ends with its newline,
    except a last line that has none. *)
Fixpoint readlines (s : str) : list (list N) :=
  match s with
  | [] => []
  | c :: r =>
      if c =? LF then [LF] :: readlines r
      else match readlines r with
           | [] => [[c]]
           | l :: ls => (c :: l) :: ls
           end
  end.

End Str.

Example isspace_examples :
  map Str.isspace [0x20; 0x0A; 0x0D; 0xA0; 0x3000; 0x41; 0x200B]
  = [true; true; true; true; true; false; false].
Proof. reflexivity. Qed.

Module LinuxConfig.

(** [load_recent_files]: the stripped, non-empty lines of the list file, or
    nothing when the file does not exist.  The file is opened without
    [encoding=], as for the writes. *)
Definition load_recent_files (e : env) : M (list (list N)) :=
  present <- get (fun w => files w !! recent_files_file e) ;;
  match present with
  | Some _ =>
      text <- IO.read_default e (recent_files_file e) ;;
      ret (List.filter truthy (map Str.strip (Str.readlines text)))
  | None => ret []
  end.

End LinuxConfig.

(** The default encoding reads back what it wrote. *)
Definition locale_round_trip (e : env) : Prop :=
  forall s bs,
    Codec.charwise_encode (locale_encode e) s = Some bs ->
    locale_decode e bs = Some s.

(** A path that survives [strip] and the splitting into lines. *)
Definition plain_path (p : list N) : Prop :=
  truthy p = true /\ Str.strip p = p
  /\ Forall (fun c => c <> CR /\ c <> LF) p.

Lemma rstrip_space s c :
  Str.isspace c = true -> Str.rstrip (s ++ [c]) = Str.rstrip s.
Proof.
  intros Hc. unfold Str.rstrip. rewrite rev_app_distr. cbn [rev app Str.lstrip].
  now rewrite Hc.
Qed.

Lemma strip_line p : Str.strip (p ++ [LF]) = Str.strip p.
Proof. unfold Str.strip. now rewrite rstrip_space. Qed.

Lemma readlines_line p rest :
  Forall (fun c => c <> CR /\ c <> LF) p ->
  Str.readlines (p ++ [LF] ++ rest) = (p ++ [LF]) :: Str.readlines rest.
Proof.
  induction 1 as [|c p [_ Hc] _ IH]; cbn [app Str.readlines].
  - now rewrite N.eqb_refl.
  - destruct (N.eqb_spec c LF); [contradiction|].
    cbn [app] in IH. now rewrite IH.
Qed.

Lemma readlines_join_lines l :
  Forall plain_path l ->
  Str.readlines (join_lines l) = map (fun p => p ++ [LF]) l.
Proof.
  induction 1 as [|p l (_ & _ & Hp) _ IH]; [reflexivity|].
  cbn [join_lines flat_map map]. fold (join_lines l).
  rewrite <- app_assoc, readlines_line by assumption. now rewrite IH.
Qed.

Lemma strip_lines_back l :
  Forall plain_path l ->
  List.filter truthy (map Str.strip (map (fun p => p ++ [LF]) l)) = l.
Proof.
  induction 1 as [|p l (Ht & Hs & _) _ IH]; [reflexivity|].
  cbn [map List.filter]. rewrite strip_line, Hs, Ht. now rewrite IH.
Qed.

Lemma join_lines_no_cr l :
  Forall plain_path l -> Forall (fun c => c <> CR) (join_lines l).
Proof.
  induction 1 as [|p l (_ & _ & Hp) _ IH]; [constructor|].
  cbn [join_lines flat_map]. fold (join_lines l).
  repeat (apply Forall_app; split); try assumption.
  - eapply Forall_impl; [exact Hp|]. now intros c [? _].
  - repeat constructor. discriminate.
Qed.

(** X12. The recent-files list survives a restart: what
    [add_to_recent_files] wrote, [load_recent_files] reads back as the very
    list in memory, provided every path is plain (not empty, no white space
    at either end, no line break inside), the line separator is that of
    POSIX or of Windows, and the default encoding of the locale, with which
    the file is both written and read, decodes what it encoded. *)
Theorem recent_files_round_trip (e : env) (filepath : str) (w : world)
        (n : Z) :
  max_files e = Some n -> recent_ok e filepath w ->
  may_read e (recent_files_file e) = true ->
  linesep e = [LF] \/ linesep e = [CR; LF] ->
  locale_round_trip e ->
  Forall plain_path (filepath :: recent_files w) ->
  let w' := after (Linux.add_to_recent_files e filepath) w in
  result (LinuxConfig.load_recent_files e) w' = Return (recent_files w').
Proof.
  intros Hmax Hok Hread Hls Hrt Hplain w'.
  assert (Hlist : recent_files w'
                  = Linux.slice_to n
                      (recent_front filepath (recent_files w))).
  { subst w'. unfold after. now rewrite add_to_recent_files_list, Hmax. }
  destruct (add_to_recent_files_written e filepath w n Hmax Hok)
    as (bs & Hbs & Hfile).
  rewrite <- Hlist in Hbs. fold (after (Linux.add_to_recent_files e filepath) w)
    in Hfile. fold w' in Hfile.
  assert (Hp : Forall plain_path (recent_files w')).
  { rewrite Hlist. now apply slice_to_Forall, recent_front_Forall. }
  unfold result, LinuxConfig.load_recent_files, bind at 1, get. cbn [fst snd].
  rewrite Hfile. unfold IO.read_default, bind, emit, modify, get.
  cbn [fst snd]. destruct w' as [c m cf rf fs tr] eqn:Hw'.
  cbn [files with_event recent_files] in *. rewrite Hfile, Hread.
  rewrite (Hrt _ _ Hbs).
  rewrite newlines_there_and_back by auto using join_lines_no_cr.
  cbn [ret fst]. now rewrite readlines_join_lines, strip_lines_back.
Qed.

Lemma recent_files_round_trip_witness :
  result (LinuxConfig.load_recent_files open_env)
         (after (Linux.add_to_recent_files open_env legacy_file) two_recent)
  = Return [legacy_file; tmp_a].
Proof.
  assert (Hok : recent_ok open_env legacy_file two_recent).
  { unfold recent_ok, line_encodable. cbn. repeat split; eauto. }
  assert (Hplain : Forall plain_path (legacy_file :: recent_files two_recent)).
  { repeat constructor; try reflexivity; cbn; repeat constructor;
      discriminate. }
  assert (Hrt : locale_round_trip open_env).
  { intros s bs H. apply utf8_decode_encode. now rewrite <- charwise_utf8. }
  exact (recent_files_round_trip open_env legacy_file two_recent 10
           eq_refl Hok eq_refl (or_introl eq_refl) Hrt Hplain).
Defined.

(** A path that ends in a space comes back without it. *)
Example recent_files_strip_changes_path :
  result (LinuxConfig.load_recent_files open_env)
         (after (Linux.add_to_recent_files open_env (py "/tmp/a ")) fresh)
  = Return [py "/tmp/a"].
Proof. vm_compute. reflexivity. Qed.

(** ** Convert Line Endings *)

Module StrMethods.

Fixpoint startswith (prefix s : str) : bool :=
  match prefix, s with
  | [], _ => true
  | p :: prefix', c :: s' => (p =? c) && startswith prefix' s'
  | _ :: _, [] => false
  end.

Definition endswith (suffix s : str) : bool :=
  startswith (rev suffix) (rev s).

(** [s.replace(old, new)] for a pattern [old] that is not empty: the
    occurrences are found from the left and do not overlap; [skip] counts the
    characters of an occurrence still to be passed over. *)
Fixpoint replace_from (old new : str) (skip : nat) (s : str) : str :=
  match s with
  | [] => []
  | c :: r =>
      match skip with
      | S k => replace_from old new k r
      | O =>
          if startswith old s
          then new ++ replace_from old new (length old - 1) r
          else c :: replace_from old new 0 r
      end
  end.

Definition replace (old new s : str) : str := replace_from old new 0 s.

(** [s.split(sep)] for a separator of one character: the empty string splits
    into one empty piece. *)
Fixpoint split (sep : N) (s : str) : list str :=
  match s with
  | [] => [[]]
  | c :: r =>
      if c =? sep then [] :: split sep r
      else match split sep r with
           | l :: ls => (c :: l) :: ls
           | [] => [[c]]
           end
  end.

(** [sep.join(pieces)] *)
Fixpoint join (sep : str) (pieces : list str) : str :=
  match pieces with
  | [] => []
  | [l] => l
  | l :: rest => l ++ sep ++ join sep rest
  end.

(** [s.count(c)] for one character. *)
Definition count (c : N) (s : str) : nat :=
  length (List.filter (N.eqb c) s).

End StrMethods.

Example replace_examples :
  StrMethods.replace [CR] [LF] (StrMethods.replace [CR; LF] [LF] (py "x" ++ [CR; CR; LF] ++ py "y" ++ [CR]))
  = py "x" ++ [LF; LF] ++ py "y" ++ [LF].
Proof. reflexivity. Qed.

Module LinuxTools.

Definition convert_line_endings : M unit :=
  content <- Tk.text_get_1_END ;;
  let content := StrMethods.replace [CR] [LF] (StrMethods.replace [CR; LF] [LF] content) in
  Tk.text_delete_1_END ;;
  Tk.text_insert_1 content.

End LinuxTools.

(** The two replacements of [convert_line_endings] are the translation that
    text files apply when read. *)
Lemma replace_crlf_step c r :
  StrMethods.replace [CR; LF] [LF] (c :: r)
  = if c =? CR then
      match r with
      | c' :: r' =>
          if c' =? LF then LF :: StrMethods.replace [CR; LF] [LF] r'
          else c :: StrMethods.replace [CR; LF] [LF] r
      | [] => [c]
      end
    else c :: StrMethods.replace [CR; LF] [LF] r.
Proof.
  unfold StrMethods.replace. cbn [StrMethods.replace_from StrMethods.startswith length Nat.sub].
  destruct (N.eqb_spec c CR) as [->|Hc].
  - rewrite N.eqb_refl. cbn [andb]. destruct r as [|c' r']; [reflexivity|].
    rewrite (N.eqb_sym LF c'). destruct (c' =? LF); cbn [andb app];
      reflexivity.
  - replace (CR =? c) with false by (symmetry; apply N.eqb_neq; congruence).
    reflexivity.
Qed.

Lemma replace_cr_cons c r :
  StrMethods.replace [CR] [LF] (c :: r)
  = (if c =? CR then LF else c) :: StrMethods.replace [CR] [LF] r.
Proof.
  unfold StrMethods.replace. cbn [StrMethods.replace_from StrMethods.startswith length Nat.sub].
  rewrite (N.eqb_sym CR c). destruct (c =? CR); cbn [andb app]; reflexivity.
Qed.

Lemma replace_is_universal_newlines_bounded n :
  forall s, (length s <= n)%nat ->
    StrMethods.replace [CR] [LF] (StrMethods.replace [CR; LF] [LF] s)
    = Codec.universal_newlines s.
Proof.
  induction n as [|n IH]; intros s Hlen.
  - destruct s; [reflexivity|cbn in Hlen; lia].
  - destruct s as [|c r]; [reflexivity|]. cbn [length] in Hlen.
    rewrite replace_crlf_step.
    change (Codec.universal_newlines (c :: r))
      with (if c =? CR then
              match r with
              | c' :: r' =>
                  if c' =? LF then LF :: Codec.universal_newlines r'
                  else LF :: Codec.universal_newlines r
              | [] => [LF]
              end
            else c :: Codec.universal_newlines r).
    destruct (N.eqb_spec c CR) as [->|Hc].
    + destruct r as [|c' r']; [reflexivity|]. cbn [length] in Hlen.
      destruct (N.eqb_spec c' LF) as [->|Hc'].
      * rewrite replace_cr_cons. change (LF =? CR) with false. cbv iota.
        rewrite IH by lia. reflexivity.
      * rewrite replace_cr_cons. change (CR =? CR) with true. cbv iota.
        rewrite IH by (cbn [length]; lia). reflexivity.
    + rewrite replace_cr_cons.
      replace (c =? CR) with false by (symmetry; now apply N.eqb_neq).
      rewrite IH by lia. reflexivity.
Qed.

Lemma replace_is_universal_newlines s :
  StrMethods.replace [CR] [LF] (StrMethods.replace [CR; LF] [LF] s)
  = Codec.universal_newlines s.
Proof. now apply (replace_is_universal_newlines_bounded (length s)). Qed.

Lemma universal_newlines_no_cr_bounded n :
  forall s, (length s <= n)%nat ->
    Forall (fun c => c <> CR) (Codec.universal_newlines s).
Proof.
  induction n as [|n IH]; intros s Hlen.
  - destruct s; [constructor|cbn in Hlen; lia].
  - destruct s as [|c r]; [constructor|]. cbn [length] in Hlen.
    cbn [Codec.universal_newlines].
    destruct (N.eqb_spec c CR) as [->|Hc].
    + destruct r as [|c' r']; [repeat constructor; discriminate|].
      cbn [length] in Hlen.
      destruct (c' =? LF); constructor; try discriminate; apply IH;
        cbn [length]; lia.
    + constructor; [assumption|]. apply IH. lia.
Qed.

Lemma universal_newlines_id s :
  Forall (fun c => c <> CR) s -> Codec.universal_newlines s = s.
Proof.
  intros H. rewrite <- (translate_out_LF s) at 1.
  apply newlines_there_and_back; auto.
Qed.

(** X13. Convert Line Endings leaves no carriage return in the buffer: the
    new text is the old one, final newline of the widget included, with every
    CR LF and every single CR turned into LF.  Because the text is taken up
    to END, a buffer without carriage returns is not left alone: it grows by
    one newline at each use, and the modified flag goes up. *)
Theorem convert_line_endings_result (w : world) :
  let w' := after LinuxTools.convert_line_endings w in
  chars w' = Codec.universal_newlines (chars w ++ [LF])
  /\ Forall (fun c => c <> CR) (chars w')
  /\ modified w' = true
  /\ current_file w' = current_file w /\ files w' = files w
  /\ (Forall (fun c => c <> CR) (chars w) -> chars w' = chars w ++ [LF]).
Proof.
  cbv zeta.
  assert (Hc : chars (after LinuxTools.convert_line_endings w)
               = Codec.universal_newlines (chars w ++ [LF])
               /\ modified (after LinuxTools.convert_line_endings w) = true
               /\ current_file (after LinuxTools.convert_line_endings w)
                  = current_file w
               /\ files (after LinuxTools.convert_line_endings w) = files w).
  { split_world w. unfold LinuxTools.convert_line_endings. run.
    rewrite replace_is_universal_newlines.
    assert (Hne : Codec.universal_newlines (buf ++ [LF]) <> []).
    { destruct buf as [|c r]; [discriminate|]. cbn [app Codec.universal_newlines].
      destruct (c =? CR); [|discriminate].
      destruct (r ++ [LF]) as [|c' r']; [discriminate|].
      destruct (c' =? LF); discriminate. }
    destruct (Codec.universal_newlines (buf ++ [LF])) as [|c r] eqn:Hu;
      [congruence|].
    destruct buf; run; rewrite ?app_nil_r; repeat split. }
  destruct Hc as (Hc & Hm & Hp & Hf). repeat split; try assumption.
  - rewrite Hc. now apply (universal_newlines_no_cr_bounded (length (chars w ++ [LF]))).
  - intros Hcr. rewrite Hc. apply universal_newlines_id.
    apply Forall_app. split; [assumption|]. repeat constructor. discriminate.
Qed.

Lemma convert_line_endings_result_witness :
  chars (after LinuxTools.convert_line_endings typed_hello) = hello ++ [LF].
Proof.
  apply (convert_line_endings_result typed_hello).
  repeat constructor; discriminate.
Defined.

(** ** Format Code *)

Definition SP : N := 32.

Module LinuxFormat.

(** [stripped and stripped[0] in ')]}'] *)
Definition closes (stripped : str) : bool :=
  match stripped with
  | [] => false
  | c :: _ => existsb (N.eqb c) (py ")]}")
  end.

(** The loop of [format_code] over [lines], started at [indent_level]. *)
Fixpoint format_lines (indent_level : Z) (lines : list (list N))
  : list (list N) :=
  match lines with
  | [] => []
  | line :: rest =>
      let stripped := Str.strip line in
      if StrMethods.endswith (py ":") stripped then
        (repeat SP (Z.to_nat (indent_level * 4)) ++ Str.strip line)
        :: format_lines (indent_level + 1) rest
      else if closes stripped then
        let indent_level := Z.max 0 (indent_level - 1) in
        (repeat SP (Z.to_nat (indent_level * 4)) ++ Str.strip line)
        :: format_lines indent_level rest
      else
        (repeat SP (Z.to_nat (indent_level * 4)) ++ Str.strip line)
        :: format_lines indent_level rest
  end.

Definition format_code : M unit :=
  content <- Tk.text_get_1_END ;;
  let lines := StrMethods.split LF content in
  let formatted_lines := format_lines 0 lines in
  let formatted_text := StrMethods.join [LF] formatted_lines in
  Tk.text_delete_1_END ;;
  Tk.text_insert_1 formatted_text.

End LinuxFormat.

Example format_code_example :
  chars (after LinuxFormat.format_code
           (with_chars (py "if x:" ++ [LF] ++ py "  f(" ++ [LF] ++ py "y" ++ [LF]
                        ++ py " )" ++ [LF] ++ py "z") fresh))
  = py "if x:" ++ [LF] ++ py "    f(" ++ [LF] ++ py "    y" ++ [LF]
    ++ py ")" ++ [LF] ++ py "z" ++ [LF].
Proof. reflexivity. Qed.

(** *** Splitting and joining *)

Lemma split_not_nil sep s : StrMethods.split sep s <> [].
Proof.
  destruct s as [|c r]; cbn [StrMethods.split]; [discriminate|].
  destruct (c =? sep); [discriminate|].
  destruct (StrMethods.split sep r); discriminate.
Qed.

Lemma split_snoc sep s :
  StrMethods.split sep (s ++ [sep]) = StrMethods.split sep s ++ [[]].
Proof.
  induction s as [|c r IH]; cbn [app StrMethods.split].
  - now rewrite N.eqb_refl.
  - rewrite IH. destruct (c =? sep); [reflexivity|].
    pose proof (split_not_nil sep r) as Hne.
    destruct (StrMethods.split sep r); [contradiction|reflexivity].
Qed.

Lemma split_pieces sep s :
  Forall (Forall (fun c => c <> sep)) (StrMethods.split sep s).
Proof.
  induction s as [|c r IH]; cbn [StrMethods.split].
  - repeat constructor.
  - destruct (N.eqb_spec c sep) as [->|Hc]; [now constructor|].
    destruct (StrMethods.split sep r) as [|l ls];
      [repeat constructor; assumption|].
    inversion IH; subst. constructor; [|assumption]. now constructor.
Qed.

Lemma split_one_piece sep l :
  Forall (fun c => c <> sep) l -> StrMethods.split sep l = [l].
Proof.
  induction 1 as [|c l Hc _ IH]; [reflexivity|].
  cbn [StrMethods.split]. destruct (N.eqb_spec c sep); [contradiction|].
  now rewrite IH.
Qed.

Lemma split_piece_then sep l r :
  Forall (fun c => c <> sep) l ->
  StrMethods.split sep (l ++ sep :: r) = l :: StrMethods.split sep r.
Proof.
  induction 1 as [|c l Hc _ IH]; cbn [app StrMethods.split].
  - now rewrite N.eqb_refl.
  - destruct (N.eqb_spec c sep); [contradiction|]. now rewrite IH.
Qed.

Lemma split_join sep pieces :
  pieces <> [] -> Forall (Forall (fun c => c <> sep)) pieces ->
  StrMethods.split sep (StrMethods.join [sep] pieces) = pieces.
Proof.
  intros Hne H. induction H as [|l rest Hl Hrest IH]; [contradiction|].
  destruct rest as [|l' rest'].
  - now apply split_one_piece.
  - change (StrMethods.join [sep] (l :: l' :: rest'))
      with (l ++ sep :: StrMethods.join [sep] (l' :: rest')).
    rewrite split_piece_then by assumption. now rewrite IH.
Qed.

(** *** What [strip] leaves *)

Lemma lstrip_head s :
  match Str.lstrip s with
  | [] => True
  | c :: _ => Str.isspace c = false
  end.
Proof.
  induction s as [|c r IH]; [exact I|]. cbn [Str.lstrip].
  destruct (Str.isspace c) eqn:Hc; [exact IH|exact Hc].
Qed.

Lemma lstrip_again s : Str.lstrip (Str.lstrip s) = Str.lstrip s.
Proof.
  pose proof (lstrip_head s) as H.
  destruct (Str.lstrip s) as [|c r]; [reflexivity|].
  cbn [Str.lstrip]. now rewrite H.
Qed.

Lemma lstrip_spaces k s : Str.lstrip (repeat SP k ++ s) = Str.lstrip s.
Proof. induction k as [|k IH]; [reflexivity|exact IH]. Qed.

Lemma lstrip_keeps_last s c :
  Str.isspace c = false -> exists z, Str.lstrip (s ++ [c]) = z ++ [c].
Proof.
  intros Hc. induction s as [|d r IH]; cbn [app Str.lstrip].
  - rewrite Hc. now exists [].
  - destruct (Str.isspace d); [exact IH|]. now exists (d :: r).
Qed.

Lemma rstrip_keeps s c :
  Str.isspace c = false -> Str.rstrip (s ++ [c]) = s ++ [c].
Proof.
  intros Hc. unfold Str.rstrip. rewrite rev_app_distr.
  cbn [rev app Str.lstrip]. rewrite Hc.
  change (c :: rev s) with ([c] ++ rev s).
  now rewrite rev_app_distr, rev_involutive.
Qed.

Lemma rstrip_last s :
  Str.rstrip s = []
  \/ exists y c, Str.rstrip s = y ++ [c] /\ Str.isspace c = false.
Proof.
  unfold Str.rstrip. pose proof (lstrip_head (rev s)) as H.
  destruct (Str.lstrip (rev s)) as [|c t]; [now left|].
  right. now exists (rev t), c.
Qed.

Lemma rstrip_spaces k : Str.rstrip (repeat SP k) = [].
Proof.
  unfold Str.rstrip.
  assert (Hrev : rev (repeat SP k) = repeat SP k).
  { induction k as [|k IH]; [reflexivity|].
    cbn [repeat rev]. rewrite IH. clear IH.
    induction k as [|k IH]; [reflexivity|].
    cbn [repeat app]. now rewrite IH. }
  rewrite Hrev. rewrite <- (app_nil_r (repeat SP k)).
  now rewrite lstrip_spaces.
Qed.

(** Indenting a stripped line and stripping it again gives the stripped line
    back. *)
Lemma strip_indented k line :
  Str.strip (repeat SP k ++ Str.strip line) = Str.strip line.
Proof.
  unfold Str.strip at 2 3.
  destruct (rstrip_last line) as [Hnil | (y & c & Hy & Hc)].
  - rewrite Hnil. cbn [Str.lstrip]. rewrite app_nil_r.
    unfold Str.strip. now rewrite rstrip_spaces.
  - rewrite Hy. destruct (lstrip_keeps_last y c Hc) as [z Hz].
    unfold Str.strip. rewrite Hz, app_assoc, rstrip_keeps by assumption.
    rewrite <- app_assoc, lstrip_spaces, <- Hz. apply lstrip_again.
Qed.

Lemma lstrip_Forall (P : N -> Prop) s :
  Forall P s -> Forall P (Str.lstrip s).
Proof.
  induction 1 as [|c r Hc Hr IH]; [constructor|]. cbn [Str.lstrip].
  destruct (Str.isspace c); [assumption|now constructor].
Qed.

Lemma strip_Forall (P : N -> Prop) s :
  Forall P s -> Forall P (Str.strip s).
Proof.
  intros H. unfold Str.strip, Str.rstrip. apply lstrip_Forall.
  apply Forall_rev, lstrip_Forall, Forall_rev, H.
Qed.

(** *** The loop *)

Lemma format_lines_strip k lines :
  map Str.strip (LinuxFormat.format_lines k lines) = map Str.strip lines.
Proof.
  revert k. induction lines as [|line rest IH]; intros k; [reflexivity|].
  cbn [LinuxFormat.format_lines].
  destruct (StrMethods.endswith (py ":") (Str.strip line));
    [|destruct (LinuxFormat.closes (Str.strip line))];
    cbn [map]; now rewrite strip_indented, IH.
Qed.

Lemma format_lines_pieces k lines :
  Forall (Forall (fun c => c <> LF)) lines ->
  Forall (Forall (fun c => c <> LF)) (LinuxFormat.format_lines k lines).
Proof.
  intros H. revert k. induction H as [|line rest Hl _ IH]; intros k;
    [constructor|].
  assert (Hline : forall n,
             Forall (fun c => c <> LF) (repeat SP n ++ Str.strip line)).
  { intros n. apply Forall_app. split; [|now apply strip_Forall].
    induction n; constructor; [discriminate|assumption]. }
  cbn [LinuxFormat.format_lines].
  destruct (StrMethods.endswith (py ":") (Str.strip line));
    [|destruct (LinuxFormat.closes (Str.strip line))];
    constructor; auto.
Qed.

Lemma format_lines_not_nil k lines :
  lines <> [] -> LinuxFormat.format_lines k lines <> [].
Proof.
  destruct lines as [|line rest]; [contradiction|]. intros _.
  cbn [LinuxFormat.format_lines].
  destruct (StrMethods.endswith (py ":") (Str.strip line));
    [|destruct (LinuxFormat.closes (Str.strip line))]; discriminate.
Qed.

Lemma format_code_chars (w : world) :
  chars (after LinuxFormat.format_code w)
  = StrMethods.join [LF]
      (LinuxFormat.format_lines 0 (StrMethods.split LF (chars w ++ [LF])))
  /\ modified (after LinuxFormat.format_code w) = true
  /\ current_file (after LinuxFormat.format_code w) = current_file w
  /\ files (after LinuxFormat.format_code w) = files w.
Proof.
  assert (Hne : StrMethods.join [LF]
                  (LinuxFormat.format_lines 0
                     (StrMethods.split LF (chars w ++ [LF]))) <> []).
  { rewrite split_snoc.
    pose proof (split_not_nil LF (chars w)) as Hs.
    destruct (StrMethods.split LF (chars w)) as [|l ls]; [contradiction|].
    cbn [app]. pose proof (format_lines_not_nil) as Hf.
    cbn [LinuxFormat.format_lines].
    set (rest := ls ++ [[]]).
    assert (Hrest : rest <> []) by (subst rest; destruct ls; discriminate).
    destruct (StrMethods.endswith (py ":") (Str.strip l));
      [|destruct (LinuxFormat.closes (Str.strip l))].
    all: match goal with
         | |- StrMethods.join _ (?h :: LinuxFormat.format_lines ?k ?rs) <> [] =>
             specialize (Hf k rs Hrest);
             destruct (LinuxFormat.format_lines k rs) as [|l' ls'];
             [contradiction|];
             change (StrMethods.join [LF] (h :: l' :: ls'))
               with (h ++ LF :: StrMethods.join [LF] (l' :: ls'));
             destruct h; discriminate
         end. }
  split_world w. unfold LinuxFormat.format_code. run.
  cbn [chars] in Hne.
  destruct (StrMethods.join [LF]
              (LinuxFormat.format_lines 0 (StrMethods.split LF (buf ++ [LF]))))
    as [|c r] eqn:Hj; [congruence|].
  destruct buf; run; rewrite ?app_nil_r; repeat split.
Qed.

(** X14. Format Code touches nothing but the white space at the two ends of
    the lines: line by line, the stripped text after the command is the
    stripped text before it.  Because the text is taken up to END, the
    document gains one line at each use, so the command is never without
    effect, and the modified flag goes up. *)
Theorem format_code_keeps_stripped_lines (w : world) :
  let w' := after LinuxFormat.format_code w in
  map Str.strip (StrMethods.split LF (chars w'))
  = map Str.strip (StrMethods.split LF (chars w)) ++ [[]]
  /\ length (StrMethods.split LF (chars w'))
     = S (length (StrMethods.split LF (chars w)))
  /\ modified w' = true
  /\ current_file w' = current_file w /\ files w' = files w.
Proof.
  cbv zeta. destruct (format_code_chars w) as (Hc & Hm & Hp & Hf).
  assert (Hlines : StrMethods.split LF (chars (after LinuxFormat.format_code w))
                   = LinuxFormat.format_lines 0
                       (StrMethods.split LF (chars w) ++ [[]])).
  { rewrite Hc, split_snoc. apply split_join.
    - apply format_lines_not_nil.
      destruct (StrMethods.split LF (chars w)); discriminate.
    - apply format_lines_pieces. apply Forall_app. split.
      + apply split_pieces.
      + repeat constructor. }
  repeat split; try assumption.
  - rewrite Hlines, format_lines_strip, map_app. reflexivity.
  - rewrite <- (length_map Str.strip), Hlines, format_lines_strip.
    rewrite length_map, length_app. cbn [length]. lia.
Qed.

(** ** The window title of macos.py *)

Module MacWindow.

(** The marker put before the title of a document with unsaved changes. *)
Definition bullet : str := [0x2022; SP].

(** [os.path.basename] of [posixpath]: what follows the last slash. *)
Fixpoint until_slash (s : str) : str :=
  match s with
  | [] => []
  | c :: r => if c =? 0x2F then [] else c :: until_slash r
  end.

Definition basename (p : str) : str := rev (until_slash (rev p)).

(** [update_title]: the title it gives the window. *)
Definition update_title (current_file : option str) : str :=
  if truthy_opt current_file then
    let filename := basename (default [] current_file) in
    filename ++ py " - Notepad"
  else py "Untitled - Notepad".

(** [on_text_modified], the handler of [<<Modified>>], as a function of the
    flag [text.edit_modified()] and of the title [root.title()] it finds; the
    result is the title it leaves. *)
Definition on_text_modified (modified : bool) (title : str) : str :=
  if modified then
    if negb (StrMethods.startswith bullet title) then bullet ++ title
    else title
  else
    if StrMethods.startswith bullet title then skipn 2 title
    else title.

End MacWindow.

(** The title after a series of [<<Modified>>] events, given by the value of
    the flag at each. *)
Definition title_after_events (flags : list bool) (title : str) : str :=
  fold_left (fun t m => MacWindow.on_text_modified m t) flags title.

Example basename_examples :
  map MacWindow.basename [py "/tmp/a.txt"; py "a.txt"; py "/tmp/"; py ""]
  = [py "a.txt"; py "a.txt"; py ""; py ""].
Proof. reflexivity. Qed.

(** A file whose name begins with the marker: the handler takes the name for
    a marked title, shows no marker for unsaved changes and cuts the name
    when the changes are saved. *)
Example title_of_bulleted_name :
  let t := MacWindow.update_title
             (Some (py "/tmp/" ++ MacWindow.bullet ++ py "x.txt")) in
  t = MacWindow.bullet ++ py "x.txt - Notepad"
  /\ MacWindow.on_text_modified true t = t
  /\ MacWindow.on_text_modified false t = py "x.txt - Notepad".
Proof. repeat split. Qed.

Lemma update_title_unmarked (current_file : option str) :
  StrMethods.startswith [0x2022]
    (MacWindow.basename (default [] current_file)) = false ->
  StrMethods.startswith MacWindow.bullet (MacWindow.update_title current_file)
  = false.
Proof.
  intros H. unfold MacWindow.update_title.
  destruct (truthy_opt current_file); [|reflexivity]. cbv zeta.
  destruct (MacWindow.basename (default [] current_file)) as [|c r];
    [reflexivity|].
  cbn [StrMethods.startswith andb] in H. rewrite andb_true_r in H.
  unfold MacWindow.bullet. cbn [app StrMethods.startswith]. now rewrite H.
Qed.

Lemma on_text_modified_settles (t x : list N) (m : bool) :
  StrMethods.startswith MacWindow.bullet t = false ->
  x = t \/ x = MacWindow.bullet ++ t ->
  MacWindow.on_text_modified m x = if m then MacWindow.bullet ++ t else t.
Proof.
  intros Ht Hx.
  assert (Hb : StrMethods.startswith MacWindow.bullet (MacWindow.bullet ++ t)
               = true) by reflexivity.
  unfold MacWindow.on_text_modified.
  destruct Hx as [Hx | Hx]; rewrite Hx; [rewrite Ht | rewrite Hb];
    destruct m; reflexivity.
Qed.

Lemma title_after_events_settled (t : list N) (flags : list bool) :
  StrMethods.startswith MacWindow.bullet t = false ->
  forall x, x = t \/ x = MacWindow.bullet ++ t ->
    title_after_events flags x = t
    \/ title_after_events flags x = MacWindow.bullet ++ t.
Proof.
  intros Ht. induction flags as [|m flags IH]; intros x Hx; [exact Hx|].
  cbn [title_after_events fold_left]. apply IH.
  rewrite (on_text_modified_settles t x m Ht Hx). destruct m; auto.
Qed.

(** X15. In macos.py the title carries the marker of unsaved changes exactly
    when the last [<<Modified>>] event found the flag raised, whatever events
    came before, and the title set by [update_title] comes back unchanged
    when the flag goes down, provided the name of the file does not begin
    with the bullet itself. *)
Theorem title_marker_follows_flag
  (current_file : option str) (flags : list bool) (m : bool) :
  StrMethods.startswith [0x2022]
    (MacWindow.basename (default [] current_file)) = false ->
  title_after_events (flags ++ [m]) (MacWindow.update_title current_file)
  = if m then MacWindow.bullet ++ MacWindow.update_title current_file
    else MacWindow.update_title current_file.
Proof.
  intros H. apply update_title_unmarked in H.
  unfold title_after_events. rewrite fold_left_app. cbn [fold_left].
  apply on_text_modified_settles; [assumption|].
  now apply title_after_events_settled; [|left].
Qed.

Lemma title_marker_follows_flag_witness :
  title_after_events [true; true; false; true; false]
    (MacWindow.update_title (Some tmp_a))
  = MacWindow.update_title (Some tmp_a).
Proof.
  apply (title_marker_follows_flag (Some tmp_a) [true; true; false; true]
           false).
  reflexivity.
Defined.

(** ** The line numbers of linux.py *)

Module LinuxGutter.

(** [f"{line}"] for an [int] that is not negative: its decimal digits. *)
Fixpoint digits (d : Decimal.uint) : str :=
  match d with
  | Decimal.Nil => []
  | Decimal.D0 d => 0x30 :: digits d
  | Decimal.D1 d => 0x31 :: digits d
  | Decimal.D2 d => 0x32 :: digits d
  | Decimal.D3 d => 0x33 :: digits d
  | Decimal.D4 d => 0x34 :: digits d
  | Decimal.D5 d => 0x35 :: digits d
  | Decimal.D6 d => 0x36 :: digits d
  | Decimal.D7 d => 0x37 :: digits d
  | Decimal.D8 d => 0x38 :: digits d
  | Decimal.D9 d => 0x39 :: digits d
  end.

Definition format_int (n : nat) : str := digits (Nat.to_uint n).

(** [range(a, b)] *)
Definition range (a b : nat) : list nat := seq a (b - a).

(** [update_line_numbers]: the result is the text it leaves in the
    [line_numbers] widget, which it empties and then fills at the end,
    number by number. *)
Definition update_line_numbers : M str :=
  content <- Tk.text_get_1_END ;;
  let line_count := StrMethods.count LF content in
  ret (fold_left (fun gutter line => gutter ++ (format_int line ++ [LF]))
         (range 1 (line_count + 2)) []).

End LinuxGutter.

Example update_line_numbers_examples :
  result LinuxGutter.update_line_numbers fresh
  = Return (py "1" ++ [LF] ++ py "2" ++ [LF])
  /\ result LinuxGutter.update_line_numbers
       (with_chars (flat_map (fun _ => [LF]) (seq 0 9)) fresh)
     = Return (flat_map (fun s => py s ++ [LF])
                 ["1"; "2"; "3"; "4"; "5"; "6"; "7"; "8"; "9"; "10";
                  "11"]%string).
Proof. split; reflexivity. Qed.

Lemma count_snoc c s :
  StrMethods.count c (s ++ [c]) = S (StrMethods.count c s).
Proof.
  unfold StrMethods.count. rewrite List.filter_app, length_app.
  cbn [List.filter]. rewrite N.eqb_refl. cbn [length]. lia.
Qed.

Lemma length_split sep s :
  length (StrMethods.split sep s) = S (StrMethods.count sep s).
Proof.
  unfold StrMethods.count.
  induction s as [|c r IH]; [reflexivity|].
  cbn [StrMethods.split List.filter]. rewrite (N.eqb_sym sep c).
  destruct (c =? sep).
  - cbn [length]. now rewrite IH.
  - rewrite <- IH. pose proof (split_not_nil sep r) as Hne.
    destruct (StrMethods.split sep r); [contradiction|reflexivity].
Qed.

Lemma fold_left_app_flat_map {A} (f : A -> list N) xs acc :
  fold_left (fun g x => g ++ f x) xs acc = acc ++ flat_map f xs.
Proof.
  revert acc. induction xs as [|x xs IH]; intros acc; cbn [fold_left flat_map].
  - now rewrite app_nil_r.
  - now rewrite IH, app_assoc.
Qed.

(** X16. The line-number column of linux.py lists one number more than the
    document has lines: the newlines are counted in the text taken up to
    END, which holds the final newline of the widget, and one is added to
    the count.  An empty document is numbered 1 and 2.  The document itself
    is not touched. *)
Theorem line_numbers_one_too_many (w : world) :
  let lines := length (StrMethods.split LF (chars w)) in
  result LinuxGutter.update_line_numbers w
  = Return (join_lines (map LinuxGutter.format_int (seq 1 (S lines))))
  /\ after LinuxGutter.update_line_numbers w = w.
Proof.
  cbv zeta. split_world w. unfold LinuxGutter.update_line_numbers. run.
  split; [|reflexivity]. f_equal.
  rewrite fold_left_app_flat_map, app_nil_l.
  unfold LinuxGutter.range. rewrite count_snoc, length_split.
  replace (S (StrMethods.count LF buf) + 2 - 1)%nat
    with (S (S (StrMethods.count LF buf))) by lia.
  unfold join_lines. generalize (seq 1 (S (S (StrMethods.count LF buf)))).
  intros l. induction l as [|x l IH]; [reflexivity|].
  cbn [flat_map map]. now rewrite IH.
Qed.
